(** * The to-do store of [main.go]: in-memory list, JSON persistence, auto-save

    A shallow embedding of [src/main.go] and the properties of its task
    store.  Every method of [TodoList] holds the mutex [mu] from entry to
    return, so a method call is one atomic transition of the store; the
    only place where two critical sections follow each other is the body
    of [AutoSave], which is modelled as two separate steps. *)

From Stdlib Require Import ZArith Lia Ascii String DecimalString.
From stdpp Require Import base decidable option list strings gmap.

Local Open Scope Z_scope.

(** ** Go's [int] *)

(** [int] is a 64-bit two's complement integer on the platforms the program
    is built for; arithmetic on it wraps around silently. *)
Module GoInt.

Definition MaxInt : Z := 9223372036854775807.
Definition MinInt : Z := -9223372036854775808.
Definition modulus : Z := 18446744073709551616.

Definition in_range (z : Z) : Prop := MinInt <= z <= MaxInt.

Definition wrap (z : Z) : Z := (z - MinInt) mod modulus + MinInt.

(** [x++] *)
Definition incr (x : Z) : Z := wrap (x + 1).

End GoInt.

(** ** Data model *)

(** A [time.Time], as the instant it denotes: nanoseconds since the zero
    [Time] (January 1, year 1, 00:00:00 UTC). *)
Definition Time : Type := Z.

Record Todo : Type := mkTodo {
  ID : Z;
  Title : string;
  Completed : bool;
  CreatedAt : Time
}.

(** The mutex [mu] carries no data: it makes each method atomic. *)
Record TodoList : Type := mkTodoList {
  todos : list Todo;
  idCounter : Z;
  changed : bool
}.

Global Instance Todo_eq_dec : EqDecision Todo.
Proof. solve_decision. Defined.

Global Instance TodoList_eq_dec : EqDecision TodoList.
Proof. solve_decision. Defined.

(** [&TodoList{}]: the zero value [main] starts from. *)
Definition zero_TodoList : TodoList := mkTodoList [] 0 false.

(** The lines a call writes to standard output, in order. *)
Definition output : Type := list string.

(** The ids held by a task sequence, in order. *)
Definition ids (l : list Todo) : list Z := ID <$> l.

(** ** Store operations *)

Definition CreateTodo (now : Time) (title : string) (t : TodoList)
  : TodoList * output :=
  let idCounter' := GoInt.incr (idCounter t) in
  let newTodo :=
    {| ID := idCounter'; Title := title; Completed := false;
       CreatedAt := now |} in
  ({| todos := todos t ++ [newTodo]; idCounter := idCounter';
      changed := true |},
   ["To-Do added successfully."%string]).

(** The [for i, todo := range t.todos] loop shared by [UpdateTodo] and
    [DeleteTodo]: the index of the first record whose [ID] is [id], at
    which the loop body runs and returns; [None] when the loop runs to
    its end. *)
Fixpoint find_ID (id : Z) (l : list Todo) : option nat :=
  match l with
  | [] => None
  | todo :: rest =>
      if decide (ID todo = id) then Some 0%nat else S <$> find_ID id rest
  end.

Definition set_Title (s : string) (todo : Todo) : Todo :=
  {| ID := ID todo; Title := s; Completed := Completed todo;
     CreatedAt := CreatedAt todo |}.

Definition set_Completed (b : bool) (todo : Todo) : Todo :=
  {| ID := ID todo; Title := Title todo; Completed := b;
     CreatedAt := CreatedAt todo |}.

Definition UpdateTodo (id : Z) (newTitle : string) (completed : bool)
    (t : TodoList) : TodoList * output :=
  match find_ID id (todos t) with
  | Some i =>
      let todos1 :=
        if decide (newTitle = EmptyString) then todos t
        else alter (set_Title newTitle) i (todos t) in
      let todos2 := alter (set_Completed completed) i todos1 in
      ({| todos := todos2; idCounter := idCounter t; changed := true |},
       ["To-Do updated successfully."%string])
  | None => (t, ["To-Do not found."%string])
  end.

(** [append(t.todos[:i], t.todos[i+1:]...)] *)
Definition DeleteTodo (id : Z) (t : TodoList) : TodoList * output :=
  match find_ID id (todos t) with
  | Some i =>
      ({| todos := take i (todos t) ++ drop (S i) (todos t);
          idCounter := idCounter t; changed := true |},
       ["To-Do deleted successfully."%string])
  | None => (t, ["To-Do not found."%string])
  end.

(** ** Listing *)

(** The functions of [strings], [fmt] and [time] that [ListTodos] and
    [main] call, as an interface.  [Sscan s] is [fmt.Sscan(s, &id)] for an
    [int] variable: the value it stores, or [None] when it returns an
    error. *)
Class Library : Type := {
  TrimSpace : string -> string;
  ToLower : string -> string;
  Sscan : string -> option Z;
  Format_RFC822 : Time -> string
}.

(** The newline character. *)
Definition nl : string := String (ascii_of_N 10) EmptyString.

(** The verb [%d] on an [int]. *)
Definition itoa (z : Z) : string := NilZero.string_of_int (Z.to_int z).

(** What the [fmt.Printf] of [ListTodos] writes for one record, without
    the newline that ends it. *)
Definition todo_line `{Library} (todo : Todo) : string :=
  let status :=
    if Completed todo then "Completed"%string else "Incomplete"%string in
  ("ID: " ++ itoa (ID todo) ++ " | Title: " ++ Title todo ++
   " | Status: " ++ status ++ " | Created At: " ++
   Format_RFC822 (CreatedAt todo))%string.

Definition ListTodos `{Library} (t : TodoList) : output :=
  if decide (length (todos t) = 0%nat)
  then ["No To-Dos found."%string]
  else (nl ++ "To-Do List:")%string :: (todo_line <$> todos t).

(** ** Errors, files and the JSON codec *)

(** A Go [error] value: its message and whether [os.IsNotExist] holds of
    it. *)
Record error : Type := mkError {
  Error : string;
  NotExist : bool
}.

Definition IsNotExist (err : error) : bool := NotExist err.

(** What [os.Open] returns for a path that names no file. *)
Definition ErrNotExist (name : string) : error :=
  mkError ("open " ++ name ++ ": no such file or directory") true.

(** [encoding/json] and the content of files are taken as an interface.
    [Encode l] is what [encoder.Encode(t.todos)] hands to the file for the
    slice [l], or the error it returns without writing.  [Decode d l] is
    [decoder.Decode(&t.todos)] reading a file whose content is [d] when
    [t.todos] is [l]: the value it leaves in [t.todos], and its error.
    The decoder receives a pointer to the slice, so what it stores is
    there whether or not it goes on to report an error. *)
Class Codec : Type := {
  FileData : Type;
  no_bytes : FileData;
  Encode : list Todo -> error + FileData;
  Decode : FileData -> list Todo -> list Todo * option error
}.

(** The file system: paths to file contents. *)
Abbreviation Files := (gmap string FileData).

Section Persistence.

Context `{codec : Codec}.

(** What the operating system may do wrong during one [SaveToFile]:
    [os.Create] fails; or the write of the encoded bytes fails, leaving
    some content in the file. *)
Record save_faults : Type := mkSaveFaults {
  create_fault : option error;
  write_fault : option (FileData * error)
}.

(** The same for [LoadFromFile]: [os.Open] fails for a reason of the
    system's; or reading from the opened file fails, which ends [Decode]
    before it stores anything.  With no fault, [os.Open] fails exactly
    when the path names no file. *)
Record load_faults : Type := mkLoadFaults {
  open_fault : option error;
  read_fault : option error
}.

Definition no_save_faults : save_faults := mkSaveFaults None None.
Definition no_load_faults : load_faults := mkLoadFaults None None.

(** [os.Create]: the file exists afterwards and is empty. *)
Definition os_Create (f : save_faults) (filename : string) (fs : Files)
  : error + Files :=
  match create_fault f with
  | Some err => inl err
  | None => inr (<[filename := no_bytes]> fs)
  end.

Definition os_Open (f : load_faults) (filename : string) (fs : Files)
  : error + FileData :=
  match open_fault f with
  | Some err => inl err
  | None =>
      match fs !! filename with
      | None => inl (ErrNotExist filename)
      | Some data => inr data
      end
  end.

Definition SaveToFile (f : save_faults) (filename : string) (fs : Files)
    (t : TodoList) : Files * TodoList * option error * output :=
  match os_Create f filename fs with
  | inl err => (fs, t, Some err, [])
  | inr fs1 =>
      match Encode (todos t) with
      | inl err => (fs1, t, Some err, [])
      | inr data =>
          match write_fault f with
          | Some (partial, err) =>
              (<[filename := partial]> fs1, t, Some err, [])
          | None =>
              (<[filename := data]> fs1,
               {| todos := todos t; idCounter := idCounter t;
                  changed := false |},
               None, ["To-Do list saved to file."%string])
          end
      end
  end.

Definition LoadFromFile (f : load_faults) (filename : string) (fs : Files)
    (t : TodoList) : TodoList * option error * output :=
  match os_Open f filename fs with
  | inl err => (t, Some err, [])
  | inr data =>
      match read_fault f with
      | Some err => (t, Some err, [])
      | None =>
          let '(todos', r) := Decode data (todos t) in
          let t' :=
            {| todos := todos'; idCounter := idCounter t;
               changed := changed t |} in
          match r with
          | Some err => (t', Some err, [])
          | None => (t', None, ["To-Do list loaded from file."%string])
          end
      end
  end.

(** ** Sequences of calls *)

Record World : Type := mkWorld {
  files : Files;
  store : TodoList;
  stdout : output
}.

Inductive op : Type :=
  | Create (now : Time) (title : string)
  | Update (id : Z) (newTitle : string) (completed : bool)
  | Delete (id : Z)
  | Save (f : save_faults) (filename : string)
  | Load (f : load_faults) (filename : string).

Definition exec (o : op) (w : World) : World :=
  match o with
  | Create now title =>
      let '(t, out) := CreateTodo now title (store w) in
      mkWorld (files w) t (stdout w ++ out)
  | Update id newTitle completed =>
      let '(t, out) := UpdateTodo id newTitle completed (store w) in
      mkWorld (files w) t (stdout w ++ out)
  | Delete id =>
      let '(t, out) := DeleteTodo id (store w) in
      mkWorld (files w) t (stdout w ++ out)
  | Save f filename =>
      let '(fs, t, _, out) := SaveToFile f filename (files w) (store w) in
      mkWorld fs t (stdout w ++ out)
  | Load f filename =>
      let '(t, _, out) := LoadFromFile f filename (files w) (store w) in
      mkWorld (files w) t (stdout w ++ out)
  end.

Definition run (ops : list op) (w : World) : World :=
  foldl (fun w o => exec o w) w ops.

(** A process starts with the zero store, whatever files are around. *)
Definition start (fs : Files) : World := mkWorld fs zero_TodoList [].

Definition is_Create (o : op) : bool :=
  match o with Create _ _ => true | _ => false end.

Definition is_Load (o : op) : bool :=
  match o with Load _ _ => true | _ => false end.

(** The id each [Create] of a sequence gives to its record, in order:
    the [ID] of the record the call has appended. *)
Fixpoint assigned_ids (ops : list op) (w : World) : list Z :=
  match ops with
  | [] => []
  | o :: rest =>
      let w' := exec o w in
      (if is_Create o then
         match last (todos (store w')) with
         | Some newTodo => [ID newTodo]
         | None => []
         end
       else []) ++ assigned_ids rest w'
  end.

Definition creates (ops : list op) : nat := length (filter is_Create ops).

(** ** Start-up of [main] *)

Definition filename : string := "todos.json".

(** [main] up to the start of the auto-save goroutine. *)
Definition main_startup (f : load_faults) (fs : Files) : World :=
  let todoList := zero_TodoList in
  let '(t, err, out) := LoadFromFile f filename fs todoList in
  let report :=
    match err with
    | Some e =>
        if negb (IsNotExist e)
        then [("Error loading file: " ++ Error e)%string]
        else []
    | None => []
    end in
  mkWorld fs t (out ++ report).

(** ** The auto-save goroutine *)

(** Where [AutoSave] is: blocked in [select]; between the unlock after
    reading [t.changed] and the [if shouldSave]; or returned. *)
Inductive bg_state : Type :=
  | Selecting
  | Checked (shouldSave : bool)
  | Returned.

(** [saves] counts the calls of [SaveToFile] made by [AutoSave]. *)
Record System : Type := mkSystem {
  world : World;
  bg : bg_state;
  saves : nat
}.

Inductive event : Type :=
  | EvCall (o : op)                (* the foreground calls a method *)
  | EvTick                         (* [<-ticker.C], up to the unlock *)
  | EvResume (f : save_faults)     (* the [if shouldSave] statement *)
  | EvDone.                        (* [<-done] *)

Definition step (e : event) (s : System) : option System :=
  match e, bg s with
  | EvCall o, _ => Some (mkSystem (exec o (world s)) (bg s) (saves s))
  | EvTick, Selecting =>
      let shouldSave := changed (store (world s)) in
      Some (mkSystem (world s) (Checked shouldSave) (saves s))
  | EvResume f, Checked true =>
      let w := world s in
      let '(fs, t, err, out) := SaveToFile f filename (files w) (store w) in
      let report :=
        match err with
        | Some e => [("Error saving file: " ++ Error e)%string]
        | None => []
        end in
      Some (mkSystem (mkWorld fs t (stdout w ++ out ++ report)) Selecting
              (S (saves s)))
  | EvResume f, Checked false => Some (mkSystem (world s) Selecting (saves s))
  | EvDone, Selecting =>
      let w := world s in
      Some (mkSystem
              (mkWorld (files w) (store w)
                 (stdout w ++ ["Auto-save stopped."%string]))
              Returned (saves s))
  | _, _ => None
  end.

Fixpoint steps (es : list event) (s : System) : option System :=
  match es with
  | [] => Some s
  | e :: rest =>
      match step e s with
      | Some s' => steps rest s'
      | None => None
      end
  end.

End Persistence.

(** ** The menu loop of [main] *)

(** [main] never looks at the store: the methods return nothing.  What
    it writes and which methods it calls is a function of the lines it
    reads from standard input. *)
Inductive call : Type :=
  | CallCreate (title : string)
  | CallList
  | CallUpdate (id : Z) (newTitle : string) (completed : bool)
  | CallDelete (id : Z).

(** [FgShutdown] is the end of case "5": the send on [done], the close,
    [wg.Wait()] and the return. *)
Inductive fg_action : Type :=
  | FgPrint (s : string)
  | FgPrintln (s : string)
  | FgCall (c : call)
  | FgShutdown.

(** [reader.ReadString] with its error dropped, as [main] drops it: the
    next line of standard input, newline included; at the end of input
    what is left of it, and the empty string from then on. *)
Definition ReadString (input : list string) : string * list string :=
  match input with
  | [] => (EmptyString, [])
  | line :: rest => (line, rest)
  end.

Definition menu : list fg_action :=
  [FgPrintln (nl ++ "🔷 MAIN MENU");
   FgPrintln "1️⃣  ➡  Create a New To-Do";
   FgPrintln "2️⃣  ➡  View All To-Dos";
   FgPrintln "3️⃣  ➡  Update an Existing To-Do";
   FgPrintln "4️⃣  ➡  Delete a To-Do";
   FgPrintln "5️⃣  ➡  Exit";
   FgPrint "Please enter your choice (1-5): "]%string.

Section Menu.

Context `{library : Library}.

(** One turn of the [for] loop: what it does, the input it leaves, and
    whether [main] returns. *)
Definition iteration (input : list string)
  : list fg_action * list string * bool :=
  let '(choice, input) := ReadString input in
  let choice := TrimSpace choice in
  if decide (choice = "1"%string) then
    let '(title, input) := ReadString input in
    let title := TrimSpace title in
    (menu ++
     [FgPrintln (nl ++ "📝 CREATE A NEW TO-DO");
      FgPrint "Enter the title of the new to-do: "]%string ++
     (if decide (title = EmptyString)
      then [FgPrintln "⚠️ Title cannot be empty. Please try again."%string]
      else [FgCall (CallCreate title);
            FgPrintln "✅ To-Do created successfully!"%string]),
     input, false)
  else if decide (choice = "2"%string) then
    (menu ++ [FgPrintln (nl ++ "📋 VIEW ALL TO-DOS")%string; FgCall CallList],
     input, false)
  else if decide (choice = "3"%string) then
    let '(idStr, input) := ReadString input in
    let idStr := TrimSpace idStr in
    match Sscan idStr with
    | None =>
        (menu ++
         [FgPrintln (nl ++ "✏️ UPDATE A TO-DO");
          FgPrint "Enter the ID of the to-do to update: ";
          FgPrintln "⚠️ Invalid ID. Please enter a numeric value."]%string,
         input, false)
    | Some id =>
        let '(newTitle, input) := ReadString input in
        let newTitle := TrimSpace newTitle in
        let '(completedStr, input) := ReadString input in
        let completedStr := TrimSpace completedStr in
        let completed := bool_decide (ToLower completedStr = "yes"%string) in
        (menu ++
         [FgPrintln (nl ++ "✏️ UPDATE A TO-DO")%string;
          FgPrint "Enter the ID of the to-do to update: "%string;
          FgPrint
            "Enter new title (leave empty to keep the current title): "%string;
          FgPrint "Mark as completed? (yes/no): "%string;
          FgCall (CallUpdate id newTitle completed);
          FgPrintln "✅ To-Do updated successfully!"%string],
         input, false)
    end
  else if decide (choice = "4"%string) then
    let '(idStr, input) := ReadString input in
    let idStr := TrimSpace idStr in
    match Sscan idStr with
    | None =>
        (menu ++
         [FgPrintln (nl ++ "🗑️ DELETE A TO-DO");
          FgPrint "Enter the ID of the to-do to delete: ";
          FgPrintln "⚠️ Invalid ID. Please enter a numeric value."]%string,
         input, false)
    | Some id =>
        (menu ++
         [FgPrintln (nl ++ "🗑️ DELETE A TO-DO")%string;
          FgPrint "Enter the ID of the to-do to delete: "%string;
          FgCall (CallDelete id);
          FgPrintln "✅ To-Do deleted successfully!"%string],
         input, false)
    end
  else if decide (choice = "5"%string) then
    (menu ++
     [FgPrintln (nl ++ "👋 Exiting the application... Goodbye!")%string;
      FgShutdown],
     input, true)
  else
    (menu ++
     [FgPrintln
        "⚠️ Invalid choice. Please enter a valid option (1-5)."%string],
     input, false).

(** The first [n] turns of the loop, fewer when [main] returns before. *)
Fixpoint main_loop (n : nat) (input : list string) : list fg_action :=
  match n with
  | O => []
  | S k =>
      let '(actions, input', returned) := iteration input in
      actions ++ (if returned then [] else main_loop k input')
  end.

(** [main] from the start of the auto-save goroutine on. *)
Definition main_actions (n : nat) (input : list string) : list fg_action :=
  [FgPrintln "Welcome to the Enhanced To-Do Application with Auto-Save!";
   FgPrintln "----------------------------------------------------------"]%string
  ++ main_loop n input.

(** The method behind a call; [now] is what [time.Now()] returns if the
    method asks. *)
Definition call_method (now : Time) (c : call) (t : TodoList)
  : TodoList * output :=
  match c with
  | CallCreate title => CreateTodo now title t
  | CallList => (t, ListTodos t)
  | CallUpdate id newTitle completed => UpdateTodo id newTitle completed t
  | CallDelete id => DeleteTodo id t
  end.

(** What reaches the terminal: text without a newline, or a line. *)
Inductive written : Type :=
  | Text (s : string)
  | Line (s : string).

(** The foreground on its own: the store after the actions and what
    they have written.  [clock k] is the time at the [k]-th action. *)
Fixpoint perform (clock : nat -> Time) (k : nat) (actions : list fg_action)
    (t : TodoList) : TodoList * list written :=
  match actions with
  | [] => (t, [])
  | FgPrint s :: rest =>
      let '(t', tr) := perform clock (S k) rest t in (t', Text s :: tr)
  | FgPrintln s :: rest =>
      let '(t', tr) := perform clock (S k) rest t in (t', Line s :: tr)
  | FgCall c :: rest =>
      let '(t1, out) := call_method (clock k) c t in
      let '(t', tr) := perform clock (S k) rest t1 in
      (t', (Line <$> out) ++ tr)
  | FgShutdown :: _ => (t, [])
  end.

End Menu.

(** The calls among the actions, in order. *)
Fixpoint calls_of (actions : list fg_action) : list call :=
  match actions with
  | [] => []
  | FgCall c :: rest => c :: calls_of rest
  | _ :: rest => calls_of rest
  end.

(** ** A sample of [encoding/json]

    One instance of the interface, used wherever a statement needs a
    concrete encoder and decoder.  It follows the package's documentation
    on the three kinds of file below.  For [Marshal]: string values
    encode as JSON strings coerced to valid UTF-8, replacing invalid bytes
    with the Unicode replacement rune.  For [Unmarshal]: if a JSON value
    is not appropriate for a given target type, Unmarshal skips that field
    and completes the unmarshaling as best it can, and returns an
    UnmarshalTypeError describing the earliest such error. *)

(** [Marshal]: string values are coerced to valid UTF-8, each invalid byte
    replaced by the encoding of U+FFFD.  [valid_tail c rest] is the number
    of bytes that follow [c] in the encoded rune starting at [c], if one
    starts there ([utf8.DecodeRuneInString] and its accept ranges). *)
Module UTF8.

Local Open Scope N_scope.

Definition between (lo hi : N) (c : ascii) : bool :=
  (lo <=? N_of_ascii c) && (N_of_ascii c <=? hi).

Fixpoint continuation (n : nat) (s : string) : bool :=
  match n, s with
  | O, _ => true
  | S n', String c rest => between 0x80 0xBF c && continuation n' rest
  | S _, EmptyString => false
  end.

Definition second (lo hi : N) (n : nat) (rest : string) : option nat :=
  match rest with
  | String c1 rest1 =>
      if between lo hi c1 && continuation n rest1 then Some (S n) else None
  | EmptyString => None
  end.

Definition valid_tail (c : ascii) (rest : string) : option nat :=
  if between 0x00 0x7F c then Some O
  else if between 0xC2 0xDF c then second 0x80 0xBF 0 rest
  else if between 0xE0 0xE0 c then second 0xA0 0xBF 1 rest
  else if between 0xE1 0xEC c then second 0x80 0xBF 1 rest
  else if between 0xED 0xED c then second 0x80 0x9F 1 rest
  else if between 0xEE 0xEF c then second 0x80 0xBF 1 rest
  else if between 0xF0 0xF0 c then second 0x90 0xBF 2 rest
  else if between 0xF1 0xF3 c then second 0x80 0xBF 2 rest
  else if between 0xF4 0xF4 c then second 0x80 0x8F 2 rest
  else None.

(** U+FFFD, encoded: EF BF BD. *)
Definition replacement : string :=
  String (ascii_of_N 0xEF)
    (String (ascii_of_N 0xBF) (String (ascii_of_N 0xBD) EmptyString)).

(** [skip] counts the bytes still to copy of a rune found valid. *)
Fixpoint coerce (skip : nat) (s : string) : string :=
  match s with
  | EmptyString => EmptyString
  | String c rest =>
      match skip with
      | S k => String c (coerce k rest)
      | O =>
          match valid_tail c rest with
          | Some k => String c (coerce k rest)
          | None => (replacement ++ coerce O rest)%string
          end
      end
  end.

Definition ToValidUTF8 (s : string) : string := coerce O s.

(** [utf8.ValidString]: the string is a sequence of encoded runes, each of
    one to four bytes, the second byte within the accept range of the
    first (no overlong form, no surrogate half, nothing above U+10FFFF). *)
Definition tail (c : ascii) : bool := between 0x80 0xBF c.

Definition lead3 (c1 c2 : ascii) : bool :=
  between 0xE0 0xE0 c1 && between 0xA0 0xBF c2
  || between 0xE1 0xEC c1 && between 0x80 0xBF c2
  || between 0xED 0xED c1 && between 0x80 0x9F c2
  || between 0xEE 0xEF c1 && between 0x80 0xBF c2.

Definition lead4 (c1 c2 : ascii) : bool :=
  between 0xF0 0xF0 c1 && between 0x90 0xBF c2
  || between 0xF1 0xF3 c1 && between 0x80 0xBF c2
  || between 0xF4 0xF4 c1 && between 0x80 0x8F c2.

Fixpoint ValidString (s : string) : bool :=
  match s with
  | EmptyString => true
  | String c1 s1 =>
      if between 0x00 0x7F c1 then ValidString s1 else
      match s1 with
      | EmptyString => false
      | String c2 s2 =>
          if between 0xC2 0xDF c1 && tail c2 then ValidString s2 else
          match s2 with
          | EmptyString => false
          | String c3 s3 =>
              if lead3 c1 c2 && tail c3 then ValidString s3 else
              match s3 with
              | EmptyString => false
              | String c4 s4 =>
                  lead4 c1 c2 && tail c3 && tail c4 && ValidString s4
              end
          end
      end
  end.

End UTF8.

Module Sample.

Inductive file : Type :=
  | Empty                       (* no bytes at all *)
  | Array (l : list Todo)       (* the text [Encode] writes for [l] *)
  | BadCompleted.
      (* the text  [{"id":1,"title":"x","completed":"yes"}]  *)

(** [Time.MarshalJSON] refuses years outside 0..9999 (instants taken in
    UTC): year 0 starts 366 days before the zero [Time], year 10000
    starts 3652059 days after it. *)
Definition year_in_range (instant : Time) : bool :=
  (-31622400 * 1000000000 <=? instant) &&
  (instant <? 315537897600 * 1000000000).

Definition as_written (todo : Todo) : Todo :=
  {| ID := ID todo; Title := UTF8.ToValidUTF8 (Title todo);
     Completed := Completed todo; CreatedAt := CreatedAt todo |}.

Definition encode (l : list Todo) : error + file :=
  if forallb (fun todo => year_in_range (CreatedAt todo)) l
  then inr (Array (as_written <$> l))
  else inl (mkError "Time.MarshalJSON: year outside of range [0,9999]" false).

(** An empty file: [Decode] returns [io.EOF].  An encoded sequence: each
    element has all four members, so the slice ends up holding exactly
    that sequence.  [BadCompleted]: a JSON string is not appropriate for
    the [bool] field; the decoder skips that member, completes the rest
    and returns an [UnmarshalTypeError]; element 0 of the slice, when
    there is one, is decoded into in place and keeps the fields the text
    does not set. *)
Definition decode (d : file) (l : list Todo) : list Todo * option error :=
  match d with
  | Empty => (l, Some (mkError "EOF" false))
  | Array l' => (l', None)
  | BadCompleted =>
      let element :=
        match l with
        | [] => mkTodo 1 "x" false 0
        | old :: _ => mkTodo 1 "x" (Completed old) (CreatedAt old)
        end in
      ([element],
       Some (mkError
         "json: cannot unmarshal string into Go struct field Todo.completed of type bool"
         false))
  end.

Definition json : Codec :=
  {| FileData := file; no_bytes := Empty; Encode := encode;
     Decode := decode |}.

(** A title that is not UTF-8: the single byte FF. *)
Definition byte_FF : string := String (ascii_of_N 0xFF) EmptyString.

End Sample.

(** ** A sample of the library

    An instance of [Library] for statements that need one.  It follows the
    library on ASCII text, on decimal numerals without sign or leading
    zero, and on times shown in UTC. *)
Module SampleLib.

Definition is_space (c : ascii) : bool :=
  let n := N_of_ascii c in
  ((9 <=? n) && (n <=? 13) || (n =? 32))%N.

Fixpoint trim_left (l : list ascii) : list ascii :=
  match l with
  | c :: rest => if is_space c then trim_left rest else l
  | [] => []
  end.

Definition trim_space (s : string) : string :=
  string_of_list_ascii
    (reverse (trim_left (reverse (trim_left (list_ascii_of_string s))))).

Definition lower (c : ascii) : ascii :=
  let n := N_of_ascii c in
  if ((65 <=? n) && (n <=? 90))%N then ascii_of_N (n + 32) else c.

Definition to_lower (s : string) : string :=
  string_of_list_ascii (lower <$> list_ascii_of_string s).

Definition sscan (s : string) : option Z :=
  match NilZero.uint_of_string s with
  | Some d =>
      match d with
      | Decimal.D0 (Decimal.D0 _ | Decimal.D1 _ | Decimal.D2 _ | Decimal.D3 _
                   | Decimal.D4 _ | Decimal.D5 _ | Decimal.D6 _ | Decimal.D7 _
                   | Decimal.D8 _ | Decimal.D9 _) => None
      | _ => Some (Z.of_uint d)
      end
  | None => None
  end.

Definition two_digits (z : Z) : string :=
  (itoa (z / 10 mod 10) ++ itoa (z mod 10))%string.

Definition month_name (m : Z) : string :=
  nth (Z.to_nat (m - 1))
    ["Jan"; "Feb"; "Mar"; "Apr"; "May"; "Jun";
     "Jul"; "Aug"; "Sep"; "Oct"; "Nov"; "Dec"]%string EmptyString.

(** "02 Jan 06 15:04 MST" for an instant shown in UTC; the date by the
    usual computation of the civil date from a day count. *)
Definition format_rfc822 (instant : Time) : string :=
  let secs := instant / 1000000000 in
  let days := secs / 86400 in
  let sod := secs mod 86400 in
  let z := days + 306 in
  let era := z / 146097 in
  let doe := z mod 146097 in
  let yoe := (doe - doe / 1460 + doe / 36524 - doe / 146096) / 365 in
  let doy := doe - (365 * yoe + yoe / 4 - yoe / 100) in
  let mp := (5 * doy + 2) / 153 in
  let d := doy - (153 * mp + 2) / 5 + 1 in
  let m := if mp <? 10 then mp + 3 else mp - 9 in
  let y := yoe + era * 400 + (if m <=? 2 then 1 else 0) in
  (two_digits d ++ " " ++ month_name m ++ " " ++ two_digits y ++ " " ++
   two_digits (sod / 3600) ++ ":" ++ two_digits (sod mod 3600 / 60) ++
   " UTC")%string.

Definition lib : Library :=
  {| TrimSpace := trim_space; ToLower := to_lower; Sscan := sscan;
     Format_RFC822 := format_rfc822 |}.

End SampleLib.

(** ** Properties stated below *)

(** The invariant of the data model: ids are pairwise distinct and none
    exceeds the counter. *)
Definition ids_unique_and_bounded (t : TodoList) : Prop :=
  NoDup (ids (todos t)) /\
  Forall (fun todo => ID todo <= idCounter t) (todos t).

(** The same with the ids taken from 1: what holds while no file has
    been loaded. *)
Definition ids_within (t : TodoList) : Prop :=
  NoDup (ids (todos t)) /\
  Forall (fun id => 1 <= id <= idCounter t) (ids (todos t)).

(** What [main] prints for the error of the initial load. *)
Definition load_report (err : error) : output :=
  if IsNotExist err then []
  else [("Error loading file: " ++ Error err)%string].

(** The files an earlier run of the program leaves behind: it created
    one task and the auto-save loop saved it. *)
Definition files_of_earlier_run : gmap string (@FileData Sample.json) :=
  files (@run Sample.json
           [Create 10 "a"; Save no_save_faults filename] (start ∅)).

(** The scenario of the specification, followed by a save. *)
Definition scenario : list (@op Sample.json) :=
  [Create 10 "Buy milk"; Create 11 "Walk dog"; Delete 1;
   Create 12 "Pay bills"; Update 2 EmptyString true;
   Save no_save_faults filename].

(** Strings made of ASCII bytes only. *)
Definition ascii_only (s : string) : Prop :=
  Forall (fun c => UTF8.between 0x00 0x7F c = true) (list_ascii_of_string s).

(** Records whose titles are all valid UTF-8. *)
Definition valid_titles (l : list Todo) : bool :=
  forallb (fun todo => UTF8.ValidString (Title todo)) l.

(** The calls the menu makes: the three methods that change the store.
    [ListTodos] only prints. *)
Definition is_menu_op `{codec : Codec} (o : op) : bool :=
  match o with
  | Create _ _ | Update _ _ _ | Delete _ => true
  | Save _ _ | Load _ _ => false
  end.

Definition is_tick `{codec : Codec} (e : event) : bool :=
  match e with EvTick => true | _ => false end.

Definition ticks `{codec : Codec} (es : list event) : nat :=
  length (filter is_tick es).

(** Events with the foreground calling only what the menu calls. *)
Definition menu_event `{codec : Codec} (e : event) : Prop :=
  match e with
  | EvCall o => is_menu_op o = true
  | _ => True
  end.

(** When [changed] is clear, the file holds the encoding of the list. *)
Definition in_sync `{codec : Codec} (w : World) : Prop :=
  changed (store w) = false ->
  exists data,
    Encode (todos (store w)) = inr data /\ files w !! filename = Some data.

(** ... and a loop that has decided to save has seen [changed] set, which
    nothing has cleared since. *)
Definition consistent `{codec : Codec} (s : System) : Prop :=
  in_sync (world s) /\
  (bg s = Checked true -> changed (store (world s)) = true).

(** A save the loop has decided on and not yet made. *)
Definition pending `{codec : Codec} (s : System) : nat :=
  match bg s with Checked true => 1%nat | _ => 0%nat end.

Definition titles_nonempty (t : TodoList) : Prop :=
  Forall (fun todo => Title todo <> EmptyString) (todos t).

(** The record [UpdateTodo] leaves in place of the one it matched. *)
Definition updated (newTitle : string) (completed : bool) (old : Todo)
  : Todo :=
  {| ID := ID old;
     Title := if decide (newTitle = EmptyString) then Title old else newTitle;
     Completed := completed;
     CreatedAt := CreatedAt old |}.

(** A system for the examples: one unsaved record, the loop in its
    [select]; and a run of it in which the foreground creates a second
    record between the check and the save of the first tick. *)
Definition unsaved_system : @System Sample.json :=
  mkSystem (mkWorld ∅ (mkTodoList [mkTodo 1 "a" false 10] 1 true) [])
    Selecting 0.

Definition two_ticks : list (@event Sample.json) :=
  [EvTick; EvCall (Create 11 "b"); EvResume no_save_faults;
   EvTick; EvResume no_save_faults].

Definition after_two_ticks : @System Sample.json :=
  mkSystem
    (mkWorld
       (<[filename :=
            Sample.Array [mkTodo 1 "a" false 10; mkTodo 2 "b" false 11]]>
          (<[filename := Sample.Empty]> ∅))
       (mkTodoList [mkTodo 1 "a" false 10; mkTodo 2 "b" false 11] 2 false)
       ["To-Do added successfully."; "To-Do list saved to file."]%string)
    Selecting 1.

(** A line as typed at the terminal: the text and the newline. *)
Definition typed (s : string) : string := (s ++ nl)%string.

(** A store for the examples: one completed task. *)
Definition one_done : TodoList :=
  mkTodoList [mkTodo 1 "Buy milk" true 10] 1 false.

(** How many records of a sequence carry the id. *)
Definition occurrences (id : Z) (l : list Todo) : nat :=
  length (filter (fun todo => ID todo = id) l).

(** [n] rounds of creating a record and deleting it again. *)
Fixpoint churn `{codec : Codec} (n : nat) : list op :=
  match n with
  | O => []
  | S k => churn k ++ [Create 0 "a"; Delete (Z.of_nat (S k))]
  end.

(** * Theorems *)

(** ** Go's [int] *)

Lemma wrap_in_range z : GoInt.in_range (GoInt.wrap z).
Proof.
  unfold GoInt.in_range, GoInt.wrap, GoInt.MinInt, GoInt.MaxInt, GoInt.modulus.
  pose proof (Z.mod_pos_bound (z - -9223372036854775808) 18446744073709551616).
  lia.
Qed.

Lemma wrap_small z : GoInt.in_range z -> GoInt.wrap z = z.
Proof.
  unfold GoInt.in_range, GoInt.wrap, GoInt.MinInt, GoInt.MaxInt, GoInt.modulus.
  intros Hz. rewrite Z.mod_small; lia.
Qed.

Lemma incr_below_max x :
  GoInt.MinInt <= x < GoInt.MaxInt -> GoInt.incr x = x + 1.
Proof.
  intros Hx. unfold GoInt.incr. apply wrap_small.
  unfold GoInt.in_range, GoInt.MinInt, GoInt.MaxInt in *. lia.
Qed.

Lemma incr_at_max : GoInt.incr GoInt.MaxInt = GoInt.MinInt.
Proof. reflexivity. Qed.

(** ** The scan for an id *)

Lemma find_ID_Some id l i :
  find_ID id l = Some i ->
  exists old, l !! i = Some old /\ ID old = id /\
    forall j todo, (j < i)%nat -> l !! j = Some todo -> ID todo <> id.
Proof.
  revert i. induction l as [|todo rest IH]; intros i; simpl; [done|].
  case_decide as Hid.
  - intros [= <-]. exists todo. split_and!; [done|done|]. intros j ? Hj. lia.
  - destruct (find_ID id rest) as [k|] eqn:Hk; [|done].
    intros [= <-]. destruct (IH k eq_refl) as (old & Hold & Hidold & Hbefore).
    exists old. split_and!; [done|done|].
    intros [|j] todo' Hj; simpl.
    + by intros [= <-].
    + apply Hbefore. lia.
Qed.

Lemma find_ID_None id l : find_ID id l = None <-> id ∉ ids l.
Proof.
  unfold ids. induction l as [|todo rest IH]; simpl.
  - split; [intros _; apply not_elem_of_nil | done].
  - rewrite not_elem_of_cons. case_decide as Hid.
    + split; [done|]. intros [Hne _]. by destruct Hne.
    + destruct (find_ID id rest); simpl.
      * split; [done|]. intros [_ Hnotin]. by apply IH in Hnotin.
      * split; [|done]. intros _. split; [done|]. by apply IH.
Qed.

Lemma find_ID_present id l : id ∈ ids l -> is_Some (find_ID id l).
Proof.
  intros Hin. destruct (find_ID id l) eqn:Hf; [by eexists|].
  by apply find_ID_None in Hf.
Qed.

Lemma alter_as_insert {A} (f : A -> A) (l : list A) i x :
  l !! i = Some x -> alter f i l = <[i := f x]> l.
Proof.
  revert i. induction l as [|y l IH]; intros [|i]; simpl; try done.
  - by intros [= ->].
  - intros Hi. f_equal. by apply IH.
Qed.

(** ** [UpdateTodo] and [DeleteTodo] *)

(** C3.  For an id the store holds, [UpdateTodo] stops at the first record
    with that id, keeps its title when the new title is empty and replaces
    it otherwise, writes the given completion flag in both cases, leaves
    every other record and the counter alone, and sets [changed]. *)
Theorem UpdateTodo_present id newTitle completed t :
  id ∈ ids (todos t) ->
  exists i old,
    todos t !! i = Some old /\ ID old = id /\
    (forall j todo, (j < i)%nat -> todos t !! j = Some todo -> ID todo <> id) /\
    UpdateTodo id newTitle completed t =
      ({| todos :=
            <[i := {| ID := ID old;
                      Title := if decide (newTitle = EmptyString)
                               then Title old else newTitle;
                      Completed := completed;
                      CreatedAt := CreatedAt old |}]> (todos t);
          idCounter := idCounter t;
          changed := true |},
       ["To-Do updated successfully."%string]).
Proof.
  intros Hin. destruct (find_ID_present _ _ Hin) as [i Hi].
  destruct (find_ID_Some _ _ _ Hi) as (old & Hold & Hid & Hfirst).
  exists i, old. split_and!; try done.
  unfold UpdateTodo. rewrite Hi. do 2 f_equal.
  case_decide as Hempty.
  - by rewrite (alter_as_insert _ _ _ _ Hold).
  - rewrite (alter_as_insert _ _ _ _ Hold).
    rewrite (alter_as_insert _ _ _ (set_Title newTitle old)).
    + by rewrite list_insert_insert_eq.
    + apply list_lookup_insert_eq. by eapply lookup_lt_Some.
Qed.

Lemma UpdateTodo_present_witness :
  (2 ∈ ids [mkTodo 1 "Buy milk" false 10; mkTodo 2 "Walk dog" false 11]) /\
  exists i old,
    [mkTodo 1 "Buy milk" false 10; mkTodo 2 "Walk dog" false 11] !! i
      = Some old /\ ID old = 2 /\
    (forall j todo, (j < i)%nat ->
       [mkTodo 1 "Buy milk" false 10; mkTodo 2 "Walk dog" false 11] !! j
         = Some todo -> ID todo <> 2) /\
    UpdateTodo 2 EmptyString true
      (mkTodoList [mkTodo 1 "Buy milk" false 10; mkTodo 2 "Walk dog" false 11]
         2 false) =
      ({| todos :=
            <[i := {| ID := ID old; Title := Title old; Completed := true;
                      CreatedAt := CreatedAt old |}]>
              [mkTodo 1 "Buy milk" false 10; mkTodo 2 "Walk dog" false 11];
          idCounter := 2;
          changed := true |},
       ["To-Do updated successfully."%string]).
Proof.
  assert (Hin : 2 ∈ ids [mkTodo 1 "Buy milk" false 10;
                         mkTodo 2 "Walk dog" false 11]).
  { apply list_elem_of_In. right. left. reflexivity. }
  split; [exact Hin|].
  exact (UpdateTodo_present 2 EmptyString true
    (mkTodoList [mkTodo 1 "Buy milk" false 10; mkTodo 2 "Walk dog" false 11]
       2 false) Hin).
Defined.

Lemma find_ID_absent_calls id newTitle completed t :
  find_ID id (todos t) = None ->
  UpdateTodo id newTitle completed t = (t, ["To-Do not found."%string]) /\
  DeleteTodo id t = (t, ["To-Do not found."%string]).
Proof. intros Hnone. unfold UpdateTodo, DeleteTodo. by rewrite Hnone. Qed.

(** C10.  For an id the store does not hold, [UpdateTodo] and [DeleteTodo]
    return the store as it was: same records, same counter, same
    [changed] flag; they print that nothing was found. *)
Theorem absent_id_frame id newTitle completed t :
  id ∉ ids (todos t) ->
  UpdateTodo id newTitle completed t = (t, ["To-Do not found."%string]) /\
  DeleteTodo id t = (t, ["To-Do not found."%string]).
Proof.
  intros Hnotin. apply find_ID_absent_calls. by apply find_ID_None.
Qed.

Lemma absent_id_frame_witness :
  (1 ∉ ids [mkTodo 2 "Walk dog" false 11]) /\
  UpdateTodo 1 "Feed cat" true (mkTodoList [mkTodo 2 "Walk dog" false 11] 2 false)
    = (mkTodoList [mkTodo 2 "Walk dog" false 11] 2 false,
       ["To-Do not found."%string]) /\
  DeleteTodo 1 (mkTodoList [mkTodo 2 "Walk dog" false 11] 2 false)
    = (mkTodoList [mkTodo 2 "Walk dog" false 11] 2 false,
       ["To-Do not found."%string]).
Proof.
  assert (Hnotin : 1 ∉ ids [mkTodo 2 "Walk dog" false 11]).
  { intros Hin. apply list_elem_of_In in Hin.
    destruct Hin as [Heq | []]. discriminate Heq. }
  split; [exact Hnotin|].
  exact (absent_id_frame 1 "Feed cat" true
           (mkTodoList [mkTodo 2 "Walk dog" false 11] 2 false) Hnotin).
Defined.

Lemma occurrences_cons id todo l :
  occurrences id (todo :: l) =
    if decide (ID todo = id) then S (occurrences id l) else occurrences id l.
Proof. unfold occurrences. rewrite filter_cons. by case_decide. Qed.

Lemma occurrences_none id l : occurrences id l = 0%nat -> id ∉ ids l.
Proof.
  unfold ids. induction l as [|todo l IH]; [intros _; apply not_elem_of_nil|].
  rewrite occurrences_cons. case_decide as Hid; [done|].
  intros Hocc. simpl. apply not_elem_of_cons. split; [done|]. by apply IH.
Qed.

Lemma delete_single_occurrence id l i :
  find_ID id l = Some i -> (occurrences id l <= 1)%nat ->
  id ∉ ids (take i l ++ drop (S i) l).
Proof.
  revert i. induction l as [|todo l IH]; intros i; simpl; [done|].
  rewrite occurrences_cons. case_decide as Hid.
  - intros [= <-] Hocc. simpl. rewrite drop_0.
    apply occurrences_none. lia.
  - destruct (find_ID id l) as [k|]; [|done].
    intros [= <-] Hocc. simpl. unfold ids. simpl.
    apply not_elem_of_cons. split; [done|]. by apply IH.
Qed.

(** C7, as the code has it.  When at most one record of the store carries
    the id, [UpdateTodo] on that id right after [DeleteTodo] on it finds
    nothing: it prints that and leaves the store as the deletion left
    it. *)
Theorem Update_after_Delete id newTitle completed t :
  (occurrences id (todos t) <= 1)%nat ->
  UpdateTodo id newTitle completed (DeleteTodo id t).1 =
    ((DeleteTodo id t).1, ["To-Do not found."%string]).
Proof.
  intros Hocc. apply find_ID_absent_calls, find_ID_None. unfold DeleteTodo.
  destruct (find_ID id (todos t)) as [i|] eqn:Hi; simpl.
  - by apply delete_single_occurrence.
  - by apply find_ID_None.
Qed.

Lemma Update_after_Delete_witness :
  le (occurrences 1
        [mkTodo 1 "Buy milk" false 10; mkTodo 2 "Walk dog" false 11]) 1 /\
  UpdateTodo 1 "Buy tea" true
    (DeleteTodo 1
       (mkTodoList [mkTodo 1 "Buy milk" false 10; mkTodo 2 "Walk dog" false 11]
          2 false)).1 =
    ((DeleteTodo 1
        (mkTodoList
           [mkTodo 1 "Buy milk" false 10; mkTodo 2 "Walk dog" false 11]
           2 false)).1,
     ["To-Do not found."%string]).
Proof.
  assert (Hocc : le (occurrences 1 [mkTodo 1 "Buy milk" false 10;
                                    mkTodo 2 "Walk dog" false 11]) 1).
  { vm_compute. apply le_n. }
  split; [exact Hocc|].
  exact (Update_after_Delete 1 "Buy tea" true
    (mkTodoList [mkTodo 1 "Buy milk" false 10; mkTodo 2 "Walk dog" false 11]
       2 false) Hocc).
Defined.

(** C7 as stated fails on a store that holds the id twice: [DeleteTodo]
    removes the first of the two records and [UpdateTodo] then finds the
    second. *)
Lemma Update_after_Delete_duplicate_id :
  UpdateTodo 1 EmptyString true
    (DeleteTodo 1
       (mkTodoList [mkTodo 1 "a" false 10; mkTodo 1 "b" false 3] 1 true)).1 =
    (mkTodoList [mkTodo 1 "b" true 3] 1 true,
     ["To-Do updated successfully."%string]) /\
  UpdateTodo 1 EmptyString true
    (DeleteTodo 1
       (mkTodoList [mkTodo 1 "a" false 10; mkTodo 1 "b" false 3] 1 true)).1 <>
    ((DeleteTodo 1
        (mkTodoList [mkTodo 1 "a" false 10; mkTodo 1 "b" false 3] 1 true)).1,
     ["To-Do not found."%string]).
Proof. split; [reflexivity | discriminate]. Qed.

(** ** [SaveToFile] and the [changed] flag *)

Section PersistenceFacts.

Context `{codec : Codec}.

Lemma SaveToFile_success f fn fs t fs' t' out :
  SaveToFile f fn fs t = (fs', t', None, out) ->
  create_fault f = None /\ write_fault f = None /\
  exists data,
    Encode (todos t) = inr data /\
    fs' = <[fn := data]> (<[fn := no_bytes]> fs) /\
    t' = {| todos := todos t; idCounter := idCounter t; changed := false |} /\
    out = ["To-Do list saved to file."%string].
Proof.
  unfold SaveToFile, os_Create.
  destruct (create_fault f); [done|].
  destruct (Encode (todos t)) as [|data]; [done|].
  destruct (write_fault f) as [[? ?]|]; [done|].
  intros [= <- <- <-]. split_and!; try done. by exists data.
Qed.

Lemma SaveToFile_failure f fn fs t fs' t' err out :
  SaveToFile f fn fs t = (fs', t', Some err, out) -> t' = t /\ out = [].
Proof.
  unfold SaveToFile, os_Create.
  destruct (create_fault f); [by intros [= <- <- <- <-]|].
  destruct (Encode (todos t)) as [|data]; [by intros [= <- <- <- <-]|].
  destruct (write_fault f) as [[? ?]|]; [by intros [= <- <- <- <-]|done].
Qed.

(** C8.  When [SaveToFile] returns an error it has not touched the store:
    [changed] keeps its value, so a flag that was set stays set and the
    next tick of the auto-save loop tries again. *)
Theorem SaveToFile_error_keeps_changed f fn fs t fs' t' err out :
  SaveToFile f fn fs t = (fs', t', Some err, out) ->
  t' = t /\ (changed t = true -> changed t' = true).
Proof.
  intros Hsave. apply SaveToFile_failure in Hsave as [-> _]. done.
Qed.

(** C5, as the code has it.  [changed] is false right after a
    [SaveToFile] that returned no error; it is true right after every
    [CreateTodo], and right after an [UpdateTodo] or [DeleteTodo] whose id
    the store holds. *)
Theorem changed_after_call :
  (forall f fn fs t fs' t' out,
     SaveToFile f fn fs t = (fs', t', None, out) -> changed t' = false) /\
  (forall now title t, changed (CreateTodo now title t).1 = true) /\
  (forall id newTitle completed t,
     id ∈ ids (todos t) ->
     changed (UpdateTodo id newTitle completed t).1 = true) /\
  (forall id t,
     id ∈ ids (todos t) -> changed (DeleteTodo id t).1 = true).
Proof.
  split_and!.
  - intros f fn fs t fs' t' out Hsave.
    apply SaveToFile_success in Hsave as (_ & _ & data & _ & _ & -> & _).
    done.
  - done.
  - intros id newTitle completed t Hin.
    destruct (find_ID_present _ _ Hin) as [i Hi].
    unfold UpdateTodo. by rewrite Hi.
  - intros id t Hin.
    destruct (find_ID_present _ _ Hin) as [i Hi].
    unfold DeleteTodo. by rewrite Hi.
Qed.

End PersistenceFacts.

Lemma SaveToFile_error_keeps_changed_witness :
  @SaveToFile Sample.json
    (mkSaveFaults (Some (mkError "open todos.json: permission denied" false))
       None)
    filename ∅ (mkTodoList [mkTodo 1 "a" false 10] 1 true) =
    (∅, mkTodoList [mkTodo 1 "a" false 10] 1 true,
     Some (mkError "open todos.json: permission denied" false), []) /\
  mkTodoList [mkTodo 1 "a" false 10] 1 true =
    mkTodoList [mkTodo 1 "a" false 10] 1 true /\
  (changed (mkTodoList [mkTodo 1 "a" false 10] 1 true) = true ->
   changed (mkTodoList [mkTodo 1 "a" false 10] 1 true) = true).
Proof.
  assert (Hsave :
    @SaveToFile Sample.json
      (mkSaveFaults
         (Some (mkError "open todos.json: permission denied" false)) None)
      filename ∅ (mkTodoList [mkTodo 1 "a" false 10] 1 true) =
      (∅, mkTodoList [mkTodo 1 "a" false 10] 1 true,
       Some (mkError "open todos.json: permission denied" false), []))
    by reflexivity.
  split; [exact Hsave|].
  exact (SaveToFile_error_keeps_changed _ _ _ _ _ _ _ _ Hsave).
Defined.

Lemma changed_after_call_witness :
  changed
    (@SaveToFile Sample.json no_save_faults filename ∅
       (mkTodoList [mkTodo 1 "a" false 10] 1 true)).1.1.2 = false /\
  changed (CreateTodo 10 "a" zero_TodoList).1 = true /\
  changed
    (UpdateTodo 1 EmptyString true
       (mkTodoList [mkTodo 1 "a" false 10] 1 false)).1 = true /\
  changed (DeleteTodo 1 (mkTodoList [mkTodo 1 "a" false 10] 1 false)).1
    = true.
Proof.
  assert (Hin : 1 ∈ ids (todos (mkTodoList [mkTodo 1 "a" false 10] 1 false))).
  { apply list_elem_of_In. left. reflexivity. }
  destruct (@changed_after_call Sample.json)
    as (Hsave & Hcreate & Hupdate & Hdelete).
  split; [|split; [|split]].
  - eapply (Hsave no_save_faults filename ∅
              (mkTodoList [mkTodo 1 "a" false 10] 1 true)).
    reflexivity.
  - apply Hcreate.
  - apply Hupdate, Hin.
  - apply Hdelete, Hin.
Defined.

(** C5 as stated fails for a call that finds nothing: on the zero store,
    where nothing has changed yet, [DeleteTodo] and [UpdateTodo] leave
    [changed] false. *)
Lemma changed_after_absent_id :
  changed (DeleteTodo 1 zero_TodoList).1 = false /\
  changed (UpdateTodo 1 "x" true zero_TodoList).1 = false.
Proof. split; reflexivity. Qed.

(** ** Saving, then loading *)

Section RoundTrip.

Context `{codec : Codec}.

Lemma LoadFromFile_success g fn fs t t2 out2 :
  LoadFromFile g fn fs t = (t2, None, out2) ->
  open_fault g = None /\ read_fault g = None /\
  exists data l,
    fs !! fn = Some data /\ Decode data (todos t) = (l, None) /\
    t2 = {| todos := l; idCounter := idCounter t; changed := changed t |} /\
    out2 = ["To-Do list loaded from file."%string].
Proof.
  unfold LoadFromFile, os_Open.
  destruct (open_fault g); [done|].
  destruct (fs !! fn) as [data|]; [|done].
  destruct (read_fault g); [done|].
  destruct (Decode data (todos t)) as [l [err|]] eqn:Hdec; [done|].
  intros [= <- <-]. split_and!; try done. by exists data, l.
Qed.

(** A [SaveToFile] that returned no error, followed by [LoadFromFile] on
    the same path into the zero store, for any JSON package: the load
    decodes the bytes the save encoded, so it returns what the package
    reads back from what it wrote, and the counter stays 0. *)
Lemma LoadFromFile_after_SaveToFile f fn fs t fs' t' out :
  SaveToFile f fn fs t = (fs', t', None, out) ->
  exists data,
    Encode (todos t) = inr data /\
    (forall l, Decode data [] = (l, None) ->
       LoadFromFile no_load_faults fn fs' zero_TodoList =
         ({| todos := l; idCounter := 0; changed := false |}, None,
          ["To-Do list loaded from file."%string])) /\
    (forall g t2 out2,
       LoadFromFile g fn fs' zero_TodoList = (t2, None, out2) ->
       Decode data [] = (todos t2, None) /\ idCounter t2 = 0).
Proof.
  intros Hsave.
  apply SaveToFile_success in Hsave
    as (_ & _ & data & Henc & -> & _ & _).
  assert (Hfile :
    <[fn := data]> (<[fn := no_bytes]> fs) !! fn = Some data)
    by apply lookup_insert_eq.
  exists data. split; [done|]. split.
  - intros l Hdec. unfold LoadFromFile, os_Open. simpl. rewrite Hfile.
    simpl. by rewrite Hdec.
  - intros g t2 out2 Hload.
    apply LoadFromFile_success in Hload
      as (_ & _ & data' & l & Hfile' & Hdec & -> & _).
    rewrite Hfile in Hfile'. by injection Hfile' as <-.
Qed.

End RoundTrip.

(** *** Valid UTF-8 is what [ToValidUTF8] leaves alone *)

Lemma between_true lo hi c :
  UTF8.between lo hi c = true <-> (lo <= N_of_ascii c <= hi)%N.
Proof.
  unfold UTF8.between. rewrite andb_true_iff, !N.leb_le. done.
Qed.

Lemma between_false lo hi c :
  UTF8.between lo hi c = false <->
  (N_of_ascii c < lo \/ hi < N_of_ascii c)%N.
Proof.
  unfold UTF8.between. rewrite andb_false_iff, !N.leb_gt. done.
Qed.

Ltac ranges :=
  repeat match goal with
  | H : _ && _ = true |- _ => apply andb_true_iff in H as [? ?]
  | H : _ || _ = true |- _ => apply orb_true_iff in H as [?|?]
  | H : UTF8.between _ _ _ = true |- _ => apply between_true in H
  | H : UTF8.between _ _ _ = false |- _ => apply between_false in H
  end.

Ltac decide_ranges :=
  repeat match goal with
  | |- context [UTF8.between ?lo ?hi ?c] =>
      let E := fresh "E" in
      destruct (UTF8.between lo hi c) eqn:E;
      [apply between_true in E | apply between_false in E];
      try (exfalso; lia)
  end.

Ltac decide_ranges_in H :=
  repeat match type of H with
  | context [UTF8.between ?lo ?hi ?c] =>
      let E := fresh "E" in
      destruct (UTF8.between lo hi c) eqn:E;
      [apply between_true in E | apply between_false in E];
      try (exfalso; lia)
  end.

Lemma coerce_ValidString n :
  forall s, (String.length s < n)%nat ->
    UTF8.ValidString s = true -> UTF8.coerce 0 s = s.
Proof.
  induction n as [|n IH]; intros s Hlen; [lia|].
  destruct s as [|c1 s1]; [done|]. simpl in Hlen.
  cbn [UTF8.ValidString].
  destruct (UTF8.between 0 127 c1) eqn:A1.
  { intros Hv. simpl. unfold UTF8.valid_tail. rewrite A1.
    f_equal. apply IH; [lia|done]. }
  destruct s1 as [|c2 s2]; [done|]. simpl in Hlen.
  destruct (UTF8.between 194 223 c1 && UTF8.tail c2) eqn:A2.
  { intros Hv. unfold UTF8.tail in *. ranges.
    cbn [UTF8.coerce]. unfold UTF8.valid_tail, UTF8.second.
    cbn [UTF8.continuation]. decide_ranges. simpl.
    do 2 f_equal. apply IH; [lia|done]. }
  destruct s2 as [|c3 s3]; [done|]. simpl in Hlen.
  destruct (UTF8.lead3 c1 c2 && UTF8.tail c3) eqn:A3.
  { intros Hv. clear A2. unfold UTF8.lead3, UTF8.tail in *. ranges;
    cbn [UTF8.coerce]; unfold UTF8.valid_tail, UTF8.second;
    cbn [UTF8.continuation]; decide_ranges; simpl;
    do 3 f_equal; apply IH; (lia || done). }
  destruct s3 as [|c4 s4]; [done|]. simpl in Hlen.
  intros Hv. clear A2 A3. unfold UTF8.lead4, UTF8.tail in *. ranges;
    cbn [UTF8.coerce]; unfold UTF8.valid_tail, UTF8.second;
    cbn [UTF8.continuation]; decide_ranges; simpl;
    do 4 f_equal; apply IH; (lia || done).
Qed.

Lemma length_replacement s :
  String.length (UTF8.replacement +:+ s) = S (S (S (String.length s))).
Proof. reflexivity. Qed.

Lemma length_coerce k s :
  (String.length s <= String.length (UTF8.coerce k s))%nat.
Proof.
  revert k. induction s as [|c s IH]; intros k; [simpl; lia|].
  destruct k as [|k]; cbn [UTF8.coerce].
  - destruct (UTF8.valid_tail c s) as [j|].
    + specialize (IH j). simpl. lia.
    + specialize (IH 0%nat). rewrite length_replacement. simpl. lia.
  - specialize (IH k). simpl. lia.
Qed.

(** A replaced byte makes the string two bytes longer, so a string that
    comes out as it went in had no byte replaced. *)
Lemma ValidString_coerce n :
  forall s, (String.length s < n)%nat ->
    UTF8.coerce 0 s = s -> UTF8.ValidString s = true.
Proof.
  induction n as [|n IH]; intros s Hlen; [lia|].
  destruct s as [|c1 s1]; [done|]. simpl in Hlen.
  cbn [UTF8.coerce].
  destruct (UTF8.valid_tail c1 s1) as [k|] eqn:Hvt.
  2: { intros Heq. apply (f_equal String.length) in Heq.
       rewrite length_replacement in Heq. simpl in Heq.
       pose proof (length_coerce 0 s1). lia. }
  intros [= Heq]. unfold UTF8.valid_tail in Hvt.
  decide_ranges_in Hvt; try discriminate Hvt;
    [injection Hvt as <-; cbn [UTF8.ValidString]; decide_ranges;
     apply IH; [lia|done] | ..];
    unfold UTF8.second in Hvt;
    (destruct s1 as [|c2 s2]; [discriminate Hvt|]);
    repeat (cbn [UTF8.continuation] in Hvt;
            match type of Hvt with
            | context [match ?s with EmptyString => false | _ => _ end] =>
                destruct s;
                [rewrite ?andb_false_r in Hvt; discriminate Hvt|]
            end);
    match type of Hvt with
    | (if ?b then _ else _) = _ => destruct b eqn:Hb; [|discriminate Hvt]
    end;
    injection Hvt as <-; ranges;
    cbn [UTF8.coerce] in Heq; simplify_eq;
    cbn [UTF8.ValidString]; unfold UTF8.lead3, UTF8.lead4, UTF8.tail;
    decide_ranges; cbn [andb orb];
    (apply IH; [simpl in Hlen; lia | done]).
Qed.

Lemma ToValidUTF8_ValidString s :
  UTF8.ToValidUTF8 s = s <-> UTF8.ValidString s = true.
Proof.
  split.
  - apply (ValidString_coerce (S (String.length s))). lia.
  - apply (coerce_ValidString (S (String.length s))). lia.
Qed.

(** The records [Encode] writes are the records it was given exactly when
    every title is valid UTF-8. *)
Lemma as_written_valid_titles l :
  Sample.as_written <$> l = l <-> valid_titles l = true.
Proof.
  unfold valid_titles.
  induction l as [|todo l IH]; [done|].
  cbn [fmap list_fmap forallb]. rewrite andb_true_iff, <- IH.
  rewrite <- ToValidUTF8_ValidString.
  destruct todo as [id title c at']. unfold Sample.as_written at 1.
  cbn [ID Title Completed CreatedAt].
  split.
  - intros [= Ht Hl]. by rewrite Ht at 1.
  - intros [-> Hl]. by f_equal.
Qed.

(** What [Decode] reads from the bytes [Encode] wrote for [l]: no error,
    and the records of [l] with their titles coerced. *)
Lemma Sample_reads_back l data l' err :
  @Encode Sample.json l = inr data ->
  @Decode Sample.json data [] = (l', err) ->
  l' = Sample.as_written <$> l /\ err = None.
Proof.
  simpl. unfold Sample.encode.
  destruct (forallb _ l); [|done]. intros [= <-]. simpl.
  by intros [= <- <-].
Qed.

(** C4, as the code has it.  Take a store whose titles are all valid
    UTF-8 and a [SaveToFile] on it that returned no error.  Then
    [LoadFromFile] on the same path into the zero store returns no error
    (when the system does not fail) and, whenever it returns no error, the
    store holds the saved records, same fields, same order; its counter is
    still 0 whatever the loaded ids are.  [encoding/json] is
    [Sample.json]; what it reads back is computed, not assumed. *)
Theorem save_then_load f fn fs t fs' t' out :
  valid_titles (todos t) = true ->
  @SaveToFile Sample.json f fn fs t = (fs', t', None, out) ->
  @LoadFromFile Sample.json no_load_faults fn fs' zero_TodoList =
    ({| todos := todos t; idCounter := 0; changed := false |}, None,
     ["To-Do list loaded from file."%string]) /\
  (forall g t2 out2,
     @LoadFromFile Sample.json g fn fs' zero_TodoList = (t2, None, out2) ->
     todos t2 = todos t /\ idCounter t2 = 0).
Proof.
  intros Hvalid Hsave.
  apply as_written_valid_titles in Hvalid.
  apply LoadFromFile_after_SaveToFile in Hsave
    as (data & Henc & Hload & Hany).
  destruct (@Decode Sample.json data []) as [l err] eqn:Hdec.
  destruct (Sample_reads_back _ _ _ _ Henc Hdec) as [-> ->].
  rewrite Hvalid in *. split.
  - by apply Hload.
  - intros g t2 out2 Hload2.
    destruct (Hany g t2 out2 Hload2) as [Hdec2 Hcounter].
    split; [congruence|done].
Qed.

Lemma save_then_load_witness :
  valid_titles
    [mkTodo 2 "Walk dog" true 11; mkTodo 3 "Café à 8 €" false 12] = true /\
  @SaveToFile Sample.json no_save_faults filename ∅
    (mkTodoList
       [mkTodo 2 "Walk dog" true 11; mkTodo 3 "Café à 8 €" false 12]
       3 true) =
    ({[ filename :=
          Sample.Array
            [mkTodo 2 "Walk dog" true 11; mkTodo 3 "Café à 8 €" false 12] ]},
     mkTodoList
       [mkTodo 2 "Walk dog" true 11; mkTodo 3 "Café à 8 €" false 12]
       3 false,
     None, ["To-Do list saved to file."%string]) /\
  @LoadFromFile Sample.json no_load_faults filename
    {[ filename :=
         Sample.Array
           [mkTodo 2 "Walk dog" true 11; mkTodo 3 "Café à 8 €" false 12] ]}
    zero_TodoList =
    (mkTodoList
       [mkTodo 2 "Walk dog" true 11; mkTodo 3 "Café à 8 €" false 12]
       0 false,
     None, ["To-Do list loaded from file."%string]).
Proof.
  assert (Hvalid :
    valid_titles
      [mkTodo 2 "Walk dog" true 11; mkTodo 3 "Café à 8 €" false 12] = true)
    by (vm_compute; reflexivity).
  assert (Hsave :
    @SaveToFile Sample.json no_save_faults filename ∅
      (mkTodoList
         [mkTodo 2 "Walk dog" true 11; mkTodo 3 "Café à 8 €" false 12]
         3 true) =
      ({[ filename :=
            Sample.Array
              [mkTodo 2 "Walk dog" true 11;
               mkTodo 3 "Café à 8 €" false 12] ]},
       mkTodoList
         [mkTodo 2 "Walk dog" true 11; mkTodo 3 "Café à 8 €" false 12]
         3 false,
       None, ["To-Do list saved to file."%string]))
    by (vm_compute; reflexivity).
  split; [exact Hvalid|]. split; [exact Hsave|].
  exact (proj1 (save_then_load _ _ _ (mkTodoList _ 3 true) _ _ _
                  Hvalid Hsave)).
Defined.

(** C4 as stated fails for a title that is not valid UTF-8, such as one
    typed on a Latin-1 terminal: [Encode] writes U+FFFD for each invalid
    byte, so after a save and a load that both succeed the title is
    another string. *)
Lemma save_then_load_invalid_UTF8 :
  @SaveToFile Sample.json no_save_faults filename ∅
    (mkTodoList [mkTodo 1 Sample.byte_FF false 10] 1 true) =
    ({[ filename := Sample.Array [mkTodo 1 UTF8.replacement false 10] ]},
     mkTodoList [mkTodo 1 Sample.byte_FF false 10] 1 false,
     None, ["To-Do list saved to file."%string]) /\
  @LoadFromFile Sample.json no_load_faults filename
    {[ filename := Sample.Array [mkTodo 1 UTF8.replacement false 10] ]}
    zero_TodoList =
    (mkTodoList [mkTodo 1 UTF8.replacement false 10] 0 false,
     None, ["To-Do list loaded from file."%string]) /\
  [mkTodo 1 UTF8.replacement false 10] <> [mkTodo 1 Sample.byte_FF false 10].
Proof.
  split; [vm_compute; reflexivity | split; [vm_compute; reflexivity | discriminate]].
Qed.

(** Valid UTF-8 is exactly what C4 needs: after a save and a load that
    both returned no error, the loaded records are the saved ones if and
    only if every saved title is valid UTF-8. *)
Lemma round_trip_valid_titles f g fn fs t fs' t' out t2 out2 :
  @SaveToFile Sample.json f fn fs t = (fs', t', None, out) ->
  @LoadFromFile Sample.json g fn fs' zero_TodoList = (t2, None, out2) ->
  todos t2 = todos t <-> valid_titles (todos t) = true.
Proof.
  intros Hsave Hload.
  apply LoadFromFile_after_SaveToFile in Hsave
    as (data & Henc & _ & Hany).
  destruct (Hany g t2 out2 Hload) as [Hdec _].
  destruct (Sample_reads_back _ _ _ _ Henc Hdec) as [-> _].
  apply as_written_valid_titles.
Qed.

(** Titles made of ASCII bytes are valid UTF-8. *)
Lemma ToValidUTF8_ascii_only s : ascii_only s -> UTF8.ToValidUTF8 s = s.
Proof.
  unfold UTF8.ToValidUTF8, ascii_only.
  induction s as [|c s IH]; simpl; [done|].
  intros Hall. apply Forall_cons in Hall as [Hc Hall].
  unfold UTF8.valid_tail. rewrite Hc. f_equal. by apply IH.
Qed.

(** ** Start-up *)

Section Startup.

Context `{codec : Codec}.

(** C9, as the code has it.  [main_startup] is a total function: whatever
    the load does, [main] goes on with the store it leaves.  When the
    file is missing, nothing is reported and the store is the zero store.
    When the file cannot be opened or read, the store is the zero store
    and the error is reported unless [os.IsNotExist] holds of it.  When
    decoding fails, the error is reported in the same way, and the store
    holds the records the decoder had put into the slice before it
    returned; nothing empties it. *)
Theorem main_startup_outcomes f fs :
  (open_fault f = None -> fs !! filename = None ->
   main_startup f fs = mkWorld fs zero_TodoList []) /\
  (forall err,
     os_Open f filename fs = inl err \/
     (exists data, os_Open f filename fs = inr data /\
                   read_fault f = Some err) ->
     main_startup f fs = mkWorld fs zero_TodoList (load_report err)) /\
  (forall data l err,
     os_Open f filename fs = inr data -> read_fault f = None ->
     Decode data [] = (l, Some err) ->
     main_startup f fs =
       mkWorld fs {| todos := l; idCounter := 0; changed := false |}
         (load_report err)).
Proof.
  unfold main_startup, LoadFromFile, load_report. split_and!.
  - intros Hopen Hfile. unfold os_Open. by rewrite Hopen, Hfile.
  - intros err [Hopen | (data & Hopen & Hread)]; rewrite Hopen.
    + simpl. by destruct (IsNotExist err).
    + rewrite Hread. simpl. by destruct (IsNotExist err).
  - intros data l err Hopen Hread Hdec. rewrite Hopen, Hread. simpl.
    rewrite Hdec. simpl. by destruct (IsNotExist err).
Qed.

End Startup.

Lemma main_startup_outcomes_witness :
  @main_startup Sample.json no_load_faults ∅ = mkWorld ∅ zero_TodoList [] /\
  @main_startup Sample.json
    (mkLoadFaults (Some (mkError "open todos.json: permission denied" false))
       None) ∅ =
    mkWorld ∅ zero_TodoList
      ["Error loading file: open todos.json: permission denied"%string] /\
  @main_startup Sample.json no_load_faults {[ filename := Sample.Empty ]} =
    mkWorld {[ filename := Sample.Empty ]} zero_TodoList
      ["Error loading file: EOF"%string].
Proof.
  split; [|split].
  - apply (proj1 (@main_startup_outcomes Sample.json no_load_faults ∅));
      reflexivity.
  - apply (proj1 (proj2 (@main_startup_outcomes Sample.json
             (mkLoadFaults
                (Some (mkError "open todos.json: permission denied" false))
                None) ∅))
             (mkError "open todos.json: permission denied" false)).
    left. reflexivity.
  - apply (proj2 (proj2 (@main_startup_outcomes Sample.json no_load_faults
             {[ filename := Sample.Empty ]}))
             Sample.Empty [] (mkError "EOF" false)); reflexivity.
Defined.

(** C9 as stated fails when the decoder reports an error after storing
    records.  For the file [BadCompleted] the load returns an
    [UnmarshalTypeError], [main] reports it, and the store it goes on
    with holds one record. *)
Lemma main_startup_after_type_error :
  @LoadFromFile Sample.json no_load_faults filename
    {[ filename := Sample.BadCompleted ]} zero_TodoList =
    (mkTodoList [mkTodo 1 "x" false 0] 0 false,
     Some (mkError
       "json: cannot unmarshal string into Go struct field Todo.completed of type bool"
       false),
     []) /\
  store (@main_startup Sample.json no_load_faults
           {[ filename := Sample.BadCompleted ]}) =
    mkTodoList [mkTodo 1 "x" false 0] 0 false /\
  stdout (@main_startup Sample.json no_load_faults
            {[ filename := Sample.BadCompleted ]}) =
    ["Error loading file: json: cannot unmarshal string into Go struct field Todo.completed of type bool"%string] /\
  todos (store (@main_startup Sample.json no_load_faults
                  {[ filename := Sample.BadCompleted ]})) <> [].
Proof.
  split; [vm_compute; reflexivity|].
  split; [vm_compute; reflexivity|].
  split; [vm_compute; reflexivity|].
  vm_compute. discriminate.
Qed.

(** ** The auto-save loop *)

Section AutoSave.

Context `{codec : Codec}.

Lemma steps_calls calls rest s :
  steps ((EvCall <$> calls) ++ rest) s =
    steps rest (mkSystem (run calls (world s)) (bg s) (saves s)).
Proof.
  revert s. induction calls as [|o calls IH]; intros s; simpl.
  - by destruct s.
  - by rewrite IH.
Qed.

(** C6.  Take the loop blocked in its [select] while [changed] is false.
    On the next tick it reads [false] into [shouldSave], and whatever
    methods the foreground calls before the loop reaches its [if], the
    loop then goes back to the [select] without calling [SaveToFile]: the
    world is the one the foreground calls produced and the count of saves
    is what it was.  Any number of ticks with nothing in between leave
    the whole system as it is. *)
Theorem AutoSave_skips_clean_tick s :
  bg s = Selecting -> changed (store (world s)) = false ->
  (forall calls f,
     steps (EvTick :: (EvCall <$> calls) ++ [EvResume f]) s =
       Some (mkSystem (run calls (world s)) Selecting (saves s))) /\
  (forall fl,
     steps (concat ((fun f => [EvTick; EvResume f]) <$> fl)) s = Some s).
Proof.
  destruct s as [w b n]. simpl. intros -> Hclean. split.
  - intros calls f. simpl. rewrite Hclean, steps_calls. done.
  - intros fl. induction fl as [|f fl IH]; [done|].
    simpl. by rewrite Hclean.
Qed.

(** The loop calls [SaveToFile] nowhere else: a step that raises the
    count of saves is the [if] statement of a tick that read [true]. *)
Lemma save_only_after_dirty_tick e s s' :
  step e s = Some s' -> saves s' <> saves s ->
  exists f, e = EvResume f /\ bg s = Checked true.
Proof.
  destruct s as [w b n]. unfold step. simpl.
  destruct e as [o| |f|], b as [|[|]|]; simpl; intros Hstep Hsaves;
    try discriminate;
    try (injection Hstep as <-; simpl in Hsaves; congruence).
  by exists f.
Qed.

(** After a save that failed, [changed] is still set: the loop is back in
    its [select] and its next tick decides to save again. *)
Lemma AutoSave_retries_after_failure s f fs' t' err out :
  bg s = Checked true ->
  changed (store (world s)) = true ->
  SaveToFile f filename (files (world s)) (store (world s)) =
    (fs', t', Some err, out) ->
  exists s1,
    step (EvResume f) s = Some s1 /\ saves s1 = S (saves s) /\
    step EvTick s1 = Some (mkSystem (world s1) (Checked true) (saves s1)).
Proof.
  destruct s as [w b n]. simpl. intros -> Hdirty Hsave.
  pose proof (SaveToFile_failure _ _ _ _ _ _ _ _ Hsave) as [-> ->].
  eexists. unfold step. simpl. rewrite Hsave. split; [done|].
  simpl. by rewrite Hdirty.
Qed.

End AutoSave.

Lemma AutoSave_skips_clean_tick_witness :
  @steps Sample.json
    [EvTick; EvCall (Create 10 "a"); EvResume no_save_faults]
    (mkSystem (start ∅) Selecting 0) =
    Some (mkSystem (run [Create 10 "a"] (start ∅)) Selecting 0) /\
  @steps Sample.json
    [EvTick; EvResume no_save_faults; EvTick; EvResume no_save_faults]
    (mkSystem (start ∅) Selecting 0) =
    Some (mkSystem (start ∅) Selecting 0).
Proof.
  split.
  - exact (proj1 (@AutoSave_skips_clean_tick Sample.json
                    (mkSystem (start ∅) Selecting 0) eq_refl eq_refl)
             [Create 10 "a"] no_save_faults).
  - exact (proj2 (@AutoSave_skips_clean_tick Sample.json
                    (mkSystem (start ∅) Selecting 0) eq_refl eq_refl)
             [no_save_faults; no_save_faults]).
Defined.

(** ** Ids along a sequence of calls *)

Lemma ids_alter (f : Todo -> Todo) i l :
  (forall todo, ID (f todo) = ID todo) -> ids (alter f i l) = ids l.
Proof.
  intros Hf. unfold ids. revert i.
  induction l as [|todo l IH]; intros [|i]; simpl; try done.
  - by rewrite Hf.
  - f_equal. apply IH.
Qed.

Lemma UpdateTodo_ids id newTitle completed t :
  ids (todos (UpdateTodo id newTitle completed t).1) = ids (todos t) /\
  idCounter (UpdateTodo id newTitle completed t).1 = idCounter t.
Proof.
  unfold UpdateTodo. destruct (find_ID id (todos t)); simpl; [|done].
  split; [|done]. rewrite ids_alter by done.
  case_decide; [done|]. by rewrite ids_alter.
Qed.

Lemma DeleteTodo_ids id t :
  ids (todos (DeleteTodo id t).1) `sublist_of` ids (todos t) /\
  idCounter (DeleteTodo id t).1 = idCounter t.
Proof.
  unfold DeleteTodo. destruct (find_ID id (todos t)) as [i|]; simpl; [|done].
  split; [|done]. unfold ids.
  rewrite <- delete_take_drop, list_fmap_delete. apply sublist_delete.
Qed.

Section Traces.

Context `{codec : Codec}.

Lemma SaveToFile_store f fn fs t :
  todos (SaveToFile f fn fs t).1.1.2 = todos t /\
  idCounter (SaveToFile f fn fs t).1.1.2 = idCounter t.
Proof.
  unfold SaveToFile. destruct (os_Create f fn fs); [done|].
  destruct (Encode (todos t)); [done|].
  by destruct (write_fault f) as [[? ?]|].
Qed.

Lemma LoadFromFile_idCounter g fn fs t :
  idCounter (LoadFromFile g fn fs t).1.1 = idCounter t.
Proof.
  unfold LoadFromFile. destruct (os_Open g fn fs); [done|].
  destruct (read_fault g); [done|].
  by destruct (Decode _ _) as [? [?|]].
Qed.

Lemma store_exec o w :
  store (exec o w) =
    match o with
    | Create now title => (CreateTodo now title (store w)).1
    | Update id newTitle completed =>
        (UpdateTodo id newTitle completed (store w)).1
    | Delete id => (DeleteTodo id (store w)).1
    | Save f fn => (SaveToFile f fn (files w) (store w)).1.1.2
    | Load g fn => (LoadFromFile g fn (files w) (store w)).1.1
    end.
Proof.
  destruct o; simpl.
  - done.
  - by destruct (UpdateTodo _ _ _ _).
  - by destruct (DeleteTodo _ _).
  - by destruct (SaveToFile _ _ _ _) as [[[? ?] ?] ?].
  - by destruct (LoadFromFile _ _ _ _) as [[? ?] ?].
Qed.

Lemma run_app ops1 ops2 w : run (ops1 ++ ops2) w = run ops2 (run ops1 w).
Proof. apply foldl_app. Qed.

Lemma creates_cons o ops :
  creates (o :: ops) = if is_Create o then S (creates ops) else creates ops.
Proof.
  unfold creates. rewrite filter_cons.
  destruct (is_Create o); case_decide; done.
Qed.

(** Only [CreateTodo] moves the counter. *)
Lemma idCounter_exec o w :
  idCounter (store (exec o w)) =
    if is_Create o then GoInt.incr (idCounter (store w))
    else idCounter (store w).
Proof.
  rewrite store_exec. destruct o; simpl.
  - done.
  - apply UpdateTodo_ids.
  - apply DeleteTodo_ids.
  - apply SaveToFile_store.
  - apply LoadFromFile_idCounter.
Qed.

Lemma assigned_ids_counter ops w :
  GoInt.MinInt <= idCounter (store w) ->
  idCounter (store w) + Z.of_nat (creates ops) <= GoInt.MaxInt ->
  assigned_ids ops w =
    seqZ (idCounter (store w) + 1) (Z.of_nat (creates ops)) /\
  idCounter (store (run ops w)) =
    idCounter (store w) + Z.of_nat (creates ops).
Proof.
  revert w. induction ops as [|o ops IH]; intros w Hmin Hmax.
  - simpl. split; [done|]. unfold creates. simpl. lia.
  - rewrite creates_cons in *. simpl assigned_ids. simpl run.
    pose proof (idCounter_exec o w) as Hc.
    destruct (is_Create o) eqn:Ho.
    + rewrite incr_below_max in Hc by lia.
      destruct (IH (exec o w)) as [Hids Hrun]; [lia | lia |].
      fold (run ops (exec o w)). rewrite Hids, Hrun, Hc. split; [|lia].
      destruct o; try done. simpl.
      rewrite last_snoc. simpl. rewrite incr_below_max by lia.
      rewrite (seqZ_cons (idCounter (store w) + 1)) by lia.
      do 2 f_equal; lia.
    + destruct (IH (exec o w)) as [Hids Hrun]; [lia | lia |].
      fold (run ops (exec o w)). rewrite Hids, Hrun, Hc. done.
Qed.

(** C1, as the code has it.  Along any sequence of calls, as long as the
    counter stays within [int] (it starts no lower than the least [int]
    and the creations do not take it past the greatest), the ids handed
    out by the creations are the next values of the counter, one after
    the other: each is the counter before the call plus one, whatever
    deletions, updates, saves or loads come in between; none occurs
    twice; and the counter ends the number of creations higher. *)
Theorem assigned_ids_consecutive ops w :
  GoInt.MinInt <= idCounter (store w) ->
  idCounter (store w) + Z.of_nat (creates ops) <= GoInt.MaxInt ->
  assigned_ids ops w =
    seqZ (idCounter (store w) + 1) (Z.of_nat (creates ops)) /\
  NoDup (assigned_ids ops w) /\
  idCounter (store (run ops w)) =
    idCounter (store w) + Z.of_nat (creates ops).
Proof.
  intros Hmin Hmax.
  destruct (assigned_ids_counter ops w Hmin Hmax) as [Hids Hrun].
  split_and!; [done| |done]. rewrite Hids. apply NoDup_seqZ.
Qed.

End Traces.

Lemma assigned_ids_consecutive_witness :
  GoInt.MinInt <= idCounter (store (@start Sample.json ∅)) /\
  idCounter (store (@start Sample.json ∅)) + Z.of_nat (creates scenario) <= GoInt.MaxInt /\
  assigned_ids scenario (@start Sample.json ∅) = [1; 2; 3] /\
  assigned_ids scenario (@start Sample.json ∅) =
    seqZ (idCounter (store (@start Sample.json ∅)) + 1) (Z.of_nat (creates scenario)).
Proof.
  assert (Hmin : GoInt.MinInt <= idCounter (store (@start Sample.json ∅))).
  { vm_compute. discriminate. }
  assert (Hmax :
    idCounter (store (@start Sample.json ∅)) + Z.of_nat (creates scenario)
      <= GoInt.MaxInt).
  { vm_compute. discriminate. }
  split; [exact Hmin|]. split; [exact Hmax|].
  split; [vm_compute; reflexivity|].
  exact (proj1 (assigned_ids_consecutive scenario (@start Sample.json ∅) Hmin Hmax)).
Defined.

(** The scenario of the specification: ids 1, 2, 3; after deleting 1 and
    updating 2 with an empty title, the store holds "Walk dog", completed,
    and "Pay bills"; the save at the end clears [changed]. *)
Example scenario_store :
  store (run scenario (@start Sample.json ∅)) =
    mkTodoList
      [mkTodo 2 "Walk dog" true 11; mkTodo 3 "Pay bills" false 12] 3 false /\
  assigned_ids scenario (@start Sample.json ∅) = [1; 2; 3].
Proof. split; vm_compute; reflexivity. Qed.

(** C1 as stated fails where [int] ends: with the counter one below the
    greatest [int], two creations hand out the greatest and then the least
    [int], which is neither one more nor larger. *)
Lemma assigned_ids_wrap_around :
  @assigned_ids Sample.json [Create 10 "a"; Create 11 "b"]
    (mkWorld ∅ (mkTodoList [] (GoInt.MaxInt - 1) true) []) =
    [GoInt.MaxInt; GoInt.MinInt] /\
  [GoInt.MaxInt; GoInt.MinInt] <> seqZ (GoInt.MaxInt - 1 + 1) 2 /\
  GoInt.MinInt < GoInt.MaxInt.
Proof.
  split; [vm_compute; reflexivity | split; [discriminate | reflexivity]].
Qed.

Section Reachable.

Context `{codec : Codec}.

(** The store of that counterexample is one the program gets to: [n]
    rounds of creating and deleting a record, from the zero store, leave
    an empty list and the counter at [n]. *)
Lemma churn_store fs (n : nat) :
  Z.of_nat n <= GoInt.MaxInt ->
  store (run (churn n) (start fs)) =
    mkTodoList [] (Z.of_nat n) (bool_decide (n <> 0%nat)).
Proof.
  induction n as [|k IH]; intros Hmax; [done|].
  simpl churn. rewrite run_app.
  change (run [Create 0 "a"; Delete (Z.of_nat (S k))] ?w)
    with (exec (Delete (Z.of_nat (S k))) (exec (Create 0 "a") w)).
  rewrite !store_exec, IH by lia.
  unfold CreateTodo. cbn [fst todos idCounter changed app].
  rewrite incr_below_max by (unfold GoInt.MinInt, GoInt.MaxInt in *; lia).
  unfold DeleteTodo. cbn [todos find_ID ID].
  rewrite decide_True by lia. cbn [fst take drop app idCounter].
  f_equal. lia.
Qed.

Lemma ids_alter_within (c : Z) (l1 l2 : list Z) :
  l1 `sublist_of` l2 ->
  Forall (fun id => 1 <= id <= c) l2 -> Forall (fun id => 1 <= id <= c) l1.
Proof.
  intros Hsub. rewrite !Forall_forall. intros Hall x Hx.
  apply Hall. by eapply sublist_subseteq.
Qed.

Lemma exec_ids_within o w :
  is_Load o = false ->
  0 <= idCounter (store w) ->
  idCounter (store w) + (if is_Create o then 1 else 0) <= GoInt.MaxInt ->
  ids_within (store w) -> ids_within (store (exec o w)).
Proof.
  intros Hload Hmin Hmax [Hnodup Hall]. unfold ids_within.
  rewrite store_exec. destruct o; simpl in *; try done.
  - rewrite incr_below_max by (unfold GoInt.MinInt; lia).
    unfold ids in *. rewrite fmap_app. simpl. split.
    + apply NoDup_app. split_and!; [done| |apply NoDup_singleton].
      intros x Hx Hx'. apply list_elem_of_singleton in Hx'.
      rewrite Forall_forall in Hall. apply Hall in Hx. lia.
    + apply Forall_app. split.
      * eapply Forall_impl; [exact Hall|]. simpl. lia.
      * apply Forall_singleton. lia.
  - destruct (UpdateTodo_ids id newTitle completed (store w)) as [-> ->].
    done.
  - destruct (DeleteTodo_ids id (store w)) as [Hsub ->]. split.
    + by eapply sublist_NoDup.
    + by eapply ids_alter_within.
  - destruct (SaveToFile_store f filename0 (files w) (store w)) as [-> ->].
    done.
Qed.

Lemma run_ids_within ops w :
  Forall (fun o => is_Load o = false) ops ->
  0 <= idCounter (store w) ->
  idCounter (store w) + Z.of_nat (creates ops) <= GoInt.MaxInt ->
  ids_within (store w) -> ids_within (store (run ops w)).
Proof.
  revert w. induction ops as [|o ops IH]; intros w Hload Hmin Hmax Hw;
    [done|].
  apply Forall_cons in Hload as [Ho Hload]. rewrite creates_cons in Hmax.
  simpl. fold (run ops (exec o w)).
  pose proof (idCounter_exec o w) as Hc.
  apply IH; [done| | |].
  - rewrite Hc. destruct (is_Create o); [|done].
    rewrite incr_below_max by (unfold GoInt.MinInt; lia). lia.
  - rewrite Hc. destruct (is_Create o); [|lia].
    rewrite incr_below_max by (unfold GoInt.MinInt; lia). lia.
  - apply exec_ids_within; [done|done| |done].
    destruct (is_Create o); lia.
Qed.

(** C2, as the code has it.  In every store reached from the zero store
    by creations, updates, deletions and saves, as long as the creations
    are no more than the greatest [int], the ids of the records are
    pairwise distinct and none exceeds the counter. *)
Theorem ids_unique_and_bounded_without_Load fs ops :
  Forall (fun o => is_Load o = false) ops ->
  Z.of_nat (creates ops) <= GoInt.MaxInt ->
  ids_unique_and_bounded (store (run ops (start fs))).
Proof.
  intros Hload Hmax.
  destruct (run_ids_within ops (start fs)) as [Hnodup Hall];
    [done|done|simpl; lia| |].
  - split; [apply NoDup_nil_2 | apply Forall_nil_2].
  - split; [done|]. unfold ids in Hall. rewrite Forall_fmap in Hall.
    eapply Forall_impl; [exact Hall|]. simpl. lia.
Qed.

End Reachable.

Lemma ids_unique_and_bounded_without_Load_witness :
  Forall (fun o => is_Load o = false) scenario /\
  Z.of_nat (creates scenario) <= GoInt.MaxInt /\
  ids_unique_and_bounded (store (run scenario (@start Sample.json ∅))).
Proof.
  assert (Hload : Forall (fun o => is_Load o = false) scenario).
  { repeat constructor. }
  assert (Hmax : Z.of_nat (creates scenario) <= GoInt.MaxInt).
  { vm_compute. discriminate. }
  split; [exact Hload|]. split; [exact Hmax|].
  exact (ids_unique_and_bounded_without_Load ∅ scenario Hload Hmax).
Defined.

(** C2 as stated fails once a file is loaded.  A second run of the
    program, started on the files of an earlier one, loads a record with
    id 1 while its counter is 0; the next creation hands out id 1 again.
    It also fails where [int] ends: the record created last before the
    counter wraps around carries the greatest [int], above every later
    value of the counter. *)
Lemma ids_invariant_broken :
  store (@run Sample.json
           [Load no_load_faults filename]
           (@start Sample.json files_of_earlier_run)) =
    mkTodoList [mkTodo 1 "a" false 10] 0 false /\
  ~ ids_unique_and_bounded
      (store (@run Sample.json
                [Load no_load_faults filename]
                (@start Sample.json files_of_earlier_run))) /\
  store (@run Sample.json
           [Load no_load_faults filename; Create 3 "b"]
           (@start Sample.json files_of_earlier_run)) =
    mkTodoList [mkTodo 1 "a" false 10; mkTodo 1 "b" false 3] 1 true /\
  ~ ids_unique_and_bounded
      (store (@run Sample.json
                [Load no_load_faults filename; Create 3 "b"]
                (@start Sample.json files_of_earlier_run))) /\
  ~ ids_unique_and_bounded
      (store (@run Sample.json
                [Create 10 "a"; Create 11 "b"]
                (mkWorld ∅ (mkTodoList [] (GoInt.MaxInt - 1) true) []))).
Proof.
  split; [|split; [|split; [|split]]].
  - vm_compute. reflexivity.
  - intros [_ Hall]. vm_compute in Hall.
    apply Forall_cons in Hall as [Hle _]. by apply Hle.
  - vm_compute. reflexivity.
  - intros [Hnodup _]. vm_compute in Hnodup.
    apply NoDup_cons in Hnodup as [Hnotin _].
    apply Hnotin. apply list_elem_of_here.
  - assert (Hstore :
      store (@run Sample.json [Create 10 "a"; Create 11 "b"]
               (mkWorld ∅ (mkTodoList [] (GoInt.MaxInt - 1) true) [])) =
        mkTodoList
          [mkTodo GoInt.MaxInt "a" false 10; mkTodo GoInt.MinInt "b" false 11]
          GoInt.MinInt true)
      by (vm_compute; reflexivity).
    rewrite Hstore. intros [_ Hall].
    apply Forall_cons in Hall as [Hle _]. simpl in Hle.
    unfold GoInt.MaxInt, GoInt.MinInt in Hle. lia.
Qed.

(** The store with the counter one below the greatest [int] is reached
    from the zero store by that many rounds of creating and deleting. *)
Lemma wrap_around_store_reached `{codec : Codec} fs (n : nat) :
  Z.of_nat n = GoInt.MaxInt - 1 ->
  store (run (churn n) (start fs)) = mkTodoList [] (GoInt.MaxInt - 1) true.
Proof.
  intros Hn. rewrite churn_store by (rewrite Hn; done).
  rewrite Hn. f_equal. apply bool_decide_eq_true. intros ->. done.
Qed.

(** * Further properties of the code *)

(** ** The store *)

Lemma DeleteTodo_found id t i :
  find_ID id (todos t) = Some i ->
  DeleteTodo id t =
    ({| todos := take i (todos t) ++ drop (S i) (todos t);
        idCounter := idCounter t; changed := true |},
     ["To-Do deleted successfully."%string]).
Proof. intros Hi. unfold DeleteTodo. by rewrite Hi. Qed.

Lemma UpdateTodo_found id newTitle completed t i old :
  find_ID id (todos t) = Some i -> todos t !! i = Some old ->
  UpdateTodo id newTitle completed t =
    ({| todos := <[i := updated newTitle completed old]> (todos t);
        idCounter := idCounter t; changed := true |},
     ["To-Do updated successfully."%string]).
Proof.
  intros Hi Hold. unfold UpdateTodo, updated. rewrite Hi. do 2 f_equal.
  case_decide as Hempty.
  - by rewrite (alter_as_insert _ _ _ _ Hold).
  - rewrite (alter_as_insert _ _ _ _ Hold).
    rewrite (alter_as_insert _ _ _ (set_Title newTitle old)).
    + by rewrite list_insert_insert_eq.
    + apply list_lookup_insert_eq. by eapply lookup_lt_Some.
Qed.

Lemma find_ID_ids id l l' : ids l = ids l' -> find_ID id l = find_ID id l'.
Proof.
  unfold ids. revert l'. induction l as [|todo l IH]; intros [|todo' l'];
    simpl; try done.
  intros [= Hid Hrest]. rewrite Hid, (IH l' Hrest). done.
Qed.

Lemma find_ID_snoc id l todo :
  id ∉ ids l -> ID todo = id -> find_ID id (l ++ [todo]) = Some (length l).
Proof.
  unfold ids. induction l as [|x l IH]; simpl; intros Hnotin Hid.
  - by rewrite decide_True.
  - apply not_elem_of_cons in Hnotin as [Hne Hnotin].
    rewrite decide_False by done. by rewrite IH.
Qed.

(** X1.  For an id the store holds, [DeleteTodo] removes the first record
    with that id and nothing else: the records before it and after it
    stay, in their order; the list is one shorter; the counter stays and
    [changed] is set. *)
Theorem DeleteTodo_present id t :
  id ∈ ids (todos t) ->
  exists i old,
    todos t !! i = Some old /\ ID old = id /\
    (forall j todo, (j < i)%nat -> todos t !! j = Some todo -> ID todo <> id) /\
    DeleteTodo id t =
      ({| todos := take i (todos t) ++ drop (S i) (todos t);
          idCounter := idCounter t; changed := true |},
       ["To-Do deleted successfully."%string]) /\
    S (length (todos (DeleteTodo id t).1)) = length (todos t).
Proof.
  intros Hin. destruct (find_ID_present _ _ Hin) as [i Hi].
  destruct (find_ID_Some _ _ _ Hi) as (old & Hold & Hid & Hfirst).
  exists i, old. rewrite (DeleteTodo_found _ _ _ Hi). simpl.
  split; [done|]. split; [done|]. split; [done|]. split; [done|].
  apply lookup_lt_Some in Hold.
  rewrite length_app, length_take, length_drop. lia.
Qed.

Lemma DeleteTodo_present_witness :
  (1 ∈ ids [mkTodo 1 "Buy milk" false 10; mkTodo 2 "Walk dog" false 11]) /\
  exists i old,
    [mkTodo 1 "Buy milk" false 10; mkTodo 2 "Walk dog" false 11] !! i
      = Some old /\ ID old = 1 /\
    (forall j todo, (j < i)%nat ->
       [mkTodo 1 "Buy milk" false 10; mkTodo 2 "Walk dog" false 11] !! j
         = Some todo -> ID todo <> 1) /\
    DeleteTodo 1
      (mkTodoList [mkTodo 1 "Buy milk" false 10; mkTodo 2 "Walk dog" false 11]
         2 false) =
      ({| todos :=
            take i [mkTodo 1 "Buy milk" false 10; mkTodo 2 "Walk dog" false 11]
            ++ drop (S i)
                 [mkTodo 1 "Buy milk" false 10; mkTodo 2 "Walk dog" false 11];
          idCounter := 2; changed := true |},
       ["To-Do deleted successfully."%string]) /\
    S (length (todos (DeleteTodo 1
         (mkTodoList
            [mkTodo 1 "Buy milk" false 10; mkTodo 2 "Walk dog" false 11]
            2 false)).1)) = 2%nat.
Proof.
  assert (Hin : 1 ∈ ids [mkTodo 1 "Buy milk" false 10;
                         mkTodo 2 "Walk dog" false 11]).
  { apply list_elem_of_In. left. reflexivity. }
  split; [exact Hin|].
  exact (DeleteTodo_present 1
    (mkTodoList [mkTodo 1 "Buy milk" false 10; mkTodo 2 "Walk dog" false 11]
       2 false) Hin).
Defined.

Lemma occurrences_delete_first id id' l :
  occurrences id'
    match find_ID id l with
    | Some i => take i l ++ drop (S i) l
    | None => l
    end =
  if decide (id' = id) then pred (occurrences id l) else occurrences id' l.
Proof.
  induction l as [|todo l IH]; simpl.
  - by case_decide.
  - destruct (decide (ID todo = id)) as [Hid|Hid]; simpl.
    + rewrite drop_0. rewrite !occurrences_cons.
      case_decide as Hid'; subst.
      * by rewrite decide_True.
      * by rewrite decide_False by congruence.
    + destruct (find_ID id l) as [k|]; simpl in *.
      * rewrite !occurrences_cons, IH.
        destruct (decide (id' = id)) as [->|Hne].
        -- by rewrite !decide_False by done.
        -- done.
      * rewrite !occurrences_cons.
        destruct (decide (id' = id)) as [->|Hne]; [|done].
        by rewrite decide_False by done.
Qed.

(** X2.  [DeleteTodo] takes away exactly one record with the given id,
    when there is one, and no record with another id: a second record
    with the same id survives the deletion. *)
Theorem DeleteTodo_occurrences id id' t :
  occurrences id' (todos (DeleteTodo id t).1) =
    if decide (id' = id) then pred (occurrences id (todos t))
    else occurrences id' (todos t).
Proof.
  rewrite <- occurrences_delete_first. unfold DeleteTodo.
  by destruct (find_ID id (todos t)).
Qed.

Lemma fmap_alter_kept {B} (g : Todo -> B) (f : Todo -> Todo) (i : nat)
    (l : list Todo) :
  (forall todo, g (f todo) = g todo) -> g <$> alter f i l = g <$> l.
Proof.
  intros Hf. revert i.
  induction l as [|todo l IH]; intros [|i]; simpl; try done.
  - by rewrite Hf.
  - f_equal. apply IH.
Qed.

(** X3.  Whatever its arguments, [UpdateTodo] changes no id and no
    creation time, keeps the number and the order of the records, and
    leaves the counter alone. *)
Theorem UpdateTodo_keeps_ids_and_times id newTitle completed t :
  ids (todos (UpdateTodo id newTitle completed t).1) = ids (todos t) /\
  CreatedAt <$> todos (UpdateTodo id newTitle completed t).1 =
    CreatedAt <$> todos t /\
  length (todos (UpdateTodo id newTitle completed t).1) = length (todos t) /\
  idCounter (UpdateTodo id newTitle completed t).1 = idCounter t.
Proof.
  unfold UpdateTodo, ids.
  destruct (find_ID id (todos t)) as [i|]; simpl; [|done].
  rewrite !fmap_alter_kept by done. rewrite length_alter.
  case_decide; [done|].
  by rewrite !fmap_alter_kept, length_alter by done.
Qed.

(** X4.  [UpdateTodo] is idempotent: the same call a second time leaves
    the store as the first call left it and prints the same line. *)
Theorem UpdateTodo_twice id newTitle completed t :
  UpdateTodo id newTitle completed (UpdateTodo id newTitle completed t).1 =
    UpdateTodo id newTitle completed t.
Proof.
  destruct (find_ID id (todos t)) as [i|] eqn:Hi.
  - destruct (find_ID_Some _ _ _ Hi) as (old & Hold & _ & _).
    rewrite (UpdateTodo_found _ _ _ _ _ _ Hi Hold). simpl.
    rewrite (UpdateTodo_found id newTitle completed _ i
               (updated newTitle completed old)); simpl.
    + rewrite list_insert_insert_eq. do 3 f_equal.
      unfold updated. simpl. f_equal. by case_decide.
    + rewrite <- Hi. apply find_ID_ids. unfold ids.
      rewrite list_fmap_insert. simpl. apply list_insert_id.
      by rewrite list_lookup_fmap, Hold.
    + apply list_lookup_insert_eq. by eapply lookup_lt_Some.
  - unfold UpdateTodo. rewrite Hi. simpl. by rewrite Hi.
Qed.

(** X5.  Deleting the id a creation has just handed out, when no older
    record carries it, gives back the list as it was before the creation;
    the counter keeps the new value, so the id is not handed out again. *)
Theorem Delete_after_Create now title t :
  GoInt.incr (idCounter t) ∉ ids (todos t) ->
  DeleteTodo (GoInt.incr (idCounter t)) (CreateTodo now title t).1 =
    ({| todos := todos t; idCounter := GoInt.incr (idCounter t);
        changed := true |},
     ["To-Do deleted successfully."%string]).
Proof.
  intros Hfresh. unfold CreateTodo. simpl.
  erewrite DeleteTodo_found; simpl.
  - do 2 f_equal. rewrite take_app_length.
    rewrite drop_app_ge by lia.
    replace (S (length (todos t)) - length (todos t))%nat with 1%nat by lia.
    simpl. apply app_nil_r.
  - by apply find_ID_snoc.
Qed.

Lemma Delete_after_Create_witness :
  (GoInt.incr 2 ∉ ids [mkTodo 2 "Walk dog" false 11]) /\
  DeleteTodo (GoInt.incr 2)
    (CreateTodo 12 "Pay bills"
       (mkTodoList [mkTodo 2 "Walk dog" false 11] 2 false)).1 =
    ({| todos := [mkTodo 2 "Walk dog" false 11]; idCounter := GoInt.incr 2;
        changed := true |},
     ["To-Do deleted successfully."%string]).
Proof.
  assert (Hfresh : GoInt.incr 2 ∉ ids [mkTodo 2 "Walk dog" false 11]).
  { intros Hin. apply list_elem_of_In in Hin.
    destruct Hin as [Heq | []]. discriminate Heq. }
  split; [exact Hfresh|].
  exact (Delete_after_Create 12 "Pay bills"
           (mkTodoList [mkTodo 2 "Walk dog" false 11] 2 false) Hfresh).
Defined.

(** ** Persistence *)

Section PersistenceMore.

Context `{codec : Codec}.

(** X6.  [LoadFromFile] does not move the counter, so the creation after
    a load hands out the id it would have handed out without the load;
    when the loaded list already holds that id, the store holds it twice
    from then on. *)
Theorem Create_after_Load g fn fs t now title :
  last (todos (CreateTodo now title (LoadFromFile g fn fs t).1.1).1) =
    Some (mkTodo (GoInt.incr (idCounter t)) title false now) /\
  (GoInt.incr (idCounter t) ∈ ids (todos (LoadFromFile g fn fs t).1.1) ->
   ~ NoDup (ids (todos (CreateTodo now title (LoadFromFile g fn fs t).1.1).1))).
Proof.
  unfold CreateTodo. simpl. rewrite LoadFromFile_idCounter. split.
  - apply last_snoc.
  - intros Hin Hnodup. unfold ids in *. rewrite fmap_app in Hnodup.
    apply NoDup_app in Hnodup as (_ & Hdisjoint & _).
    apply (Hdisjoint _ Hin). simpl. apply list_elem_of_here.
Qed.

(** X7.  Whatever happens, [SaveToFile] leaves the records and the
    counter as they are and touches no file but the one it is given; when
    [os.Create] fails it changes nothing at all. *)
Theorem SaveToFile_frame f fn fs t fs' t' r out :
  SaveToFile f fn fs t = (fs', t', r, out) ->
  todos t' = todos t /\ idCounter t' = idCounter t /\
  (forall other, other <> fn -> fs' !! other = fs !! other) /\
  (create_fault f <> None -> fs' = fs /\ t' = t /\ out = []).
Proof.
  unfold SaveToFile, os_Create.
  destruct (create_fault f) as [e|].
  { intros [= <- <- <- <-]. done. }
  destruct (Encode (todos t)) as [e|data].
  { intros [= <- <- <- <-]. split; [done|]. split; [done|]. split; [|done].
    intros other Hne. by rewrite lookup_insert_ne. }
  destruct (write_fault f) as [[partial e]|]; intros [= <- <- <- <-];
    (split; [done|]; split; [done|]; split; [|done]);
    intros other Hne; by rewrite !lookup_insert_ne.
Qed.

(** X8.  A save that fails after [os.Create] has succeeded has already
    lost what the file held: the file is empty when the encoder failed,
    and holds what the write left when the write failed.  The store is
    untouched, so [changed] still tells of the unsaved records. *)
Theorem SaveToFile_failure_after_create f fn fs t fs' t' err out :
  SaveToFile f fn fs t = (fs', t', Some err, out) ->
  create_fault f = None ->
  t' = t /\
  (Encode (todos t) = inl err /\ fs' !! fn = Some no_bytes \/
   exists partial,
     write_fault f = Some (partial, err) /\ fs' !! fn = Some partial).
Proof.
  unfold SaveToFile, os_Create. intros Hsave Hcreate.
  rewrite Hcreate in Hsave.
  destruct (Encode (todos t)) as [e|data].
  { injection Hsave as <- <- <- <-. split; [done|]. left.
    split; [done|]. apply lookup_insert_eq. }
  destruct (write_fault f) as [[partial e]|]; [|done].
  injection Hsave as <- <- <- <-. split; [done|]. right.
  exists partial. split; [done|]. apply lookup_insert_eq.
Qed.

(** X9.  What [SaveToFile] writes and whether it fails depend on the
    records only: two stores with the same records, whatever their
    counters and flags, leave the same files and return the same error.
    The counter is in no file. *)
Theorem SaveToFile_records_only f fn fs t1 t2 :
  todos t1 = todos t2 ->
  (SaveToFile f fn fs t1).1.1.1 = (SaveToFile f fn fs t2).1.1.1 /\
  (SaveToFile f fn fs t1).1.2 = (SaveToFile f fn fs t2).1.2.
Proof.
  intros Htodos. unfold SaveToFile. rewrite Htodos.
  destruct (os_Create f fn fs); [done|].
  destruct (Encode (todos t2)); [done|].
  by destruct (write_fault f) as [[? ?]|].
Qed.

(** X10.  Saving again right after a successful save, with nothing
    failing, changes nothing: same files, same store, no error. *)
Theorem SaveToFile_twice fn fs t fs1 t1 out :
  SaveToFile no_save_faults fn fs t = (fs1, t1, None, out) ->
  SaveToFile no_save_faults fn fs1 t1 = (fs1, t1, None, out).
Proof.
  intros Hsave.
  apply SaveToFile_success in Hsave as (_ & _ & data & Henc & -> & -> & ->).
  unfold SaveToFile, os_Create. simpl. rewrite Henc.
  by rewrite !insert_insert_eq.
Qed.

(** X11.  [LoadFromFile] never changes the counter or [changed].  When
    the system refuses to open or to read the file, or the path names no
    file, it returns an error and the store is what it was. *)
Theorem LoadFromFile_frame g fn fs t t' r out :
  LoadFromFile g fn fs t = (t', r, out) ->
  idCounter t' = idCounter t /\ changed t' = changed t /\
  (open_fault g <> None \/ fs !! fn = None \/ read_fault g <> None ->
   t' = t /\ r <> None /\ out = []).
Proof.
  unfold LoadFromFile, os_Open.
  destruct (open_fault g) as [e|].
  { intros [= <- <- <-]. done. }
  destruct (fs !! fn) as [data|].
  2: { intros [= <- <- <-]. done. }
  destruct (read_fault g) as [e|].
  { intros [= <- <- <-]. done. }
  destruct (Decode data (todos t)) as [l [e|]]; intros [= <- <- <-];
    (split; [done|]; split; [done|]); intros [?|[?|?]]; done.
Qed.

End PersistenceMore.

Lemma Create_after_Load_witness :
  (GoInt.incr (idCounter zero_TodoList) ∈
     ids (todos (@LoadFromFile Sample.json no_load_faults filename
                   files_of_earlier_run zero_TodoList).1.1)) /\
  ~ NoDup
      (ids (todos
         (CreateTodo 3 "b"
            (@LoadFromFile Sample.json no_load_faults filename
               files_of_earlier_run zero_TodoList).1.1).1)).
Proof.
  assert (Hin :
    GoInt.incr (idCounter zero_TodoList) ∈
      ids (todos (@LoadFromFile Sample.json no_load_faults filename
                    files_of_earlier_run zero_TodoList).1.1)).
  { vm_compute. apply list_elem_of_here. }
  split; [exact Hin|].
  exact (proj2 (@Create_after_Load Sample.json no_load_faults filename
                  files_of_earlier_run zero_TodoList 3 "b") Hin).
Defined.

Lemma SaveToFile_frame_witness :
  @SaveToFile Sample.json no_save_faults filename
    {[ "notes.txt"%string := Sample.Empty ]}
    (mkTodoList [mkTodo 1 "a" false 10] 1 true) =
    (<[ filename := Sample.Array [mkTodo 1 "a" false 10] ]>
       {[ "notes.txt"%string := Sample.Empty ]},
     mkTodoList [mkTodo 1 "a" false 10] 1 false, None,
     ["To-Do list saved to file."%string]) /\
  (<[ filename := Sample.Array [mkTodo 1 "a" false 10] ]>
     ({[ "notes.txt"%string := Sample.Empty ]} : gmap string Sample.file))
    !! "notes.txt"%string =
    ({[ "notes.txt"%string := Sample.Empty ]} : gmap string Sample.file)
      !! "notes.txt"%string.
Proof.
  assert (Hsave :
    @SaveToFile Sample.json no_save_faults filename
      {[ "notes.txt"%string := Sample.Empty ]}
      (mkTodoList [mkTodo 1 "a" false 10] 1 true) =
      (<[ filename := Sample.Array [mkTodo 1 "a" false 10] ]>
         {[ "notes.txt"%string := Sample.Empty ]},
       mkTodoList [mkTodo 1 "a" false 10] 1 false, None,
       ["To-Do list saved to file."%string]))
    by (vm_compute; reflexivity).
  split; [exact Hsave|].
  refine (proj1 (proj2 (proj2
    (@SaveToFile_frame Sample.json _ _ _ _ _ _ _ _ Hsave)))
    "notes.txt"%string _).
  discriminate.
Defined.

Lemma SaveToFile_failure_after_create_witness :
  @SaveToFile Sample.json no_save_faults filename
    {[ filename := Sample.Array [mkTodo 1 "a" false 10] ]}
    (mkTodoList
       [mkTodo 1 "a" false 10; mkTodo 2 "b" false (-40000000000000000)]
       2 true) =
    ({[ filename := Sample.Empty ]},
     mkTodoList
       [mkTodo 1 "a" false 10; mkTodo 2 "b" false (-40000000000000000)]
       2 true,
     Some (mkError "Time.MarshalJSON: year outside of range [0,9999]" false),
     []) /\
  ({[ filename := Sample.Empty ]} : gmap string Sample.file) !! filename =
    Some Sample.Empty.
Proof.
  assert (Hsave :
    @SaveToFile Sample.json no_save_faults filename
      {[ filename := Sample.Array [mkTodo 1 "a" false 10] ]}
      (mkTodoList
         [mkTodo 1 "a" false 10; mkTodo 2 "b" false (-40000000000000000)]
         2 true) =
      ({[ filename := Sample.Empty ]},
       mkTodoList
         [mkTodo 1 "a" false 10; mkTodo 2 "b" false (-40000000000000000)]
         2 true,
       Some (mkError "Time.MarshalJSON: year outside of range [0,9999]"
               false),
       []))
    by (vm_compute; reflexivity).
  split; [exact Hsave|].
  destruct (@SaveToFile_failure_after_create Sample.json _ _ _ _ _ _ _ _
              Hsave eq_refl) as [_ [[_ Hfile] | (partial & Hfault & _)]].
  - exact Hfile.
  - discriminate Hfault.
Defined.

Lemma SaveToFile_records_only_witness :
  (@SaveToFile Sample.json no_save_faults filename ∅
     (mkTodoList [mkTodo 1 "a" false 10] 1 true)).1.1.1 =
  (@SaveToFile Sample.json no_save_faults filename ∅
     (mkTodoList [mkTodo 1 "a" false 10] 7 false)).1.1.1.
Proof.
  exact (proj1 (@SaveToFile_records_only Sample.json no_save_faults filename ∅
                  (mkTodoList [mkTodo 1 "a" false 10] 1 true)
                  (mkTodoList [mkTodo 1 "a" false 10] 7 false) eq_refl)).
Defined.

Lemma SaveToFile_twice_witness :
  @SaveToFile Sample.json no_save_faults filename
    {[ filename := Sample.Array [mkTodo 1 "a" false 10] ]}
    (mkTodoList [mkTodo 1 "a" false 10] 1 false) =
    ({[ filename := Sample.Array [mkTodo 1 "a" false 10] ]},
     mkTodoList [mkTodo 1 "a" false 10] 1 false, None,
     ["To-Do list saved to file."%string]).
Proof.
  apply (@SaveToFile_twice Sample.json filename ∅
           (mkTodoList [mkTodo 1 "a" false 10] 1 true)).
  vm_compute. reflexivity.
Defined.

Lemma LoadFromFile_frame_witness :
  @LoadFromFile Sample.json no_load_faults filename ∅
    (mkTodoList [mkTodo 1 "a" false 10] 1 true) =
    (mkTodoList [mkTodo 1 "a" false 10] 1 true,
     Some (ErrNotExist filename), []) /\
  idCounter (mkTodoList [mkTodo 1 "a" false 10] 1 true) = 1 /\
  changed (mkTodoList [mkTodo 1 "a" false 10] 1 true) = true.
Proof.
  assert (Hload :
    @LoadFromFile Sample.json no_load_faults filename ∅
      (mkTodoList [mkTodo 1 "a" false 10] 1 true) =
      (mkTodoList [mkTodo 1 "a" false 10] 1 true,
       Some (ErrNotExist filename), []))
    by (vm_compute; reflexivity).
  split; [exact Hload|].
  destruct (@LoadFromFile_frame Sample.json _ _ _ _ _ _ _ Hload)
    as (Hcounter & Hchanged & _).
  split; [exact Hcounter | exact Hchanged].
Defined.

(** ** The auto-save loop and the foreground *)

Section AutoSaveMore.

Context `{codec : Codec}.

Lemma exec_menu_op o w :
  is_menu_op o = true ->
  files (exec o w) = files w /\
  todos (store (exec o w)) = todos (store w) /\
    changed (store (exec o w)) = changed (store w) \/
  files (exec o w) = files w /\ changed (store (exec o w)) = true.
Proof.
  destruct o as [now title|id newTitle completed|id| |]; simpl; try done;
    intros _.
  - by right.
  - unfold UpdateTodo. destruct (find_ID id (todos (store w))); simpl;
      [by right | by left].
  - unfold DeleteTodo. destruct (find_ID id (todos (store w))); simpl;
      [by right | by left].
Qed.

Lemma files_run_menu calls w :
  Forall (fun o => is_menu_op o = true) calls ->
  files (run calls w) = files w.
Proof.
  revert w. induction calls as [|o calls IH]; intros w Hmenu; [done|].
  apply Forall_cons in Hmenu as [Ho Hmenu]. simpl.
  fold (run calls (exec o w)). rewrite IH by done.
  by destruct (exec_menu_op o w Ho) as [[-> _]|[-> _]].
Qed.

(** X12.  A tick that finds [changed] set leads to a save of the list as
    it is when the save runs: the records the foreground has created,
    updated or deleted between the check and the save are in the file,
    and [changed] is clear afterwards (nothing failing). *)
Theorem AutoSave_dirty_tick s calls data :
  bg s = Selecting -> changed (store (world s)) = true ->
  Forall (fun o => is_menu_op o = true) calls ->
  Encode (todos (store (run calls (world s)))) = inr data ->
  exists s',
    steps (EvTick :: (EvCall <$> calls) ++ [EvResume no_save_faults]) s
      = Some s' /\
    files (world s') =
      <[filename := data]> (<[filename := no_bytes]> (files (world s))) /\
    todos (store (world s')) = todos (store (run calls (world s))) /\
    changed (store (world s')) = false /\
    bg s' = Selecting /\ saves s' = S (saves s).
Proof.
  destruct s as [w b n]. simpl. intros -> Hdirty Hmenu Henc.
  rewrite Hdirty, steps_calls. simpl.
  unfold SaveToFile, os_Create. simpl. rewrite Henc. simpl.
  eexists. split; [reflexivity|]. simpl.
  by rewrite (files_run_menu calls w Hmenu).
Qed.

Lemma step_consistent e s s' :
  menu_event e -> consistent s -> step e s = Some s' -> consistent s'.
Proof.
  destruct s as [w b n]. unfold consistent, in_sync, step. simpl.
  intros He [Hsync Hdirty].
  destruct e as [o| |f|]; simpl in He.
  - intros [= <-]. simpl.
    destruct (exec_menu_op o w He) as [(Hf & Ht & Hc)|[Hf Hc]].
    + rewrite Hf, Ht, Hc. done.
    + rewrite Hc. split; [done|]. done.
  - destruct b as [|[|]|]; try done. intros [= <-]. simpl.
    split; [done|]. by intros [= ->].
  - destruct b as [|[|]|]; try done.
    + specialize (Hdirty eq_refl).
      destruct (SaveToFile f filename (files w) (store w))
        as [[[fs t] [err|]] out] eqn:Hsave; intros [= <-]; simpl.
      * apply SaveToFile_failure in Hsave as [-> _].
        split; [|done]. by rewrite Hdirty.
      * apply SaveToFile_success in Hsave
          as (_ & _ & data & Henc & -> & -> & _).
        simpl. split; [|done]. intros _. exists data.
        split; [done|]. apply lookup_insert_eq.
    + intros [= <-]. simpl. split; [done|]. done.
  - destruct b as [|[|]|]; try done. intros [= <-]. simpl.
    split; [done|]. done.
Qed.

(** X13.  With the foreground calling only what the menu calls, the
    following holds after every step once it holds: whenever [changed] is
    clear, the file holds the encoding of the records now in the store.
    The check and the save of the loop are two critical sections, and
    still no clear flag hides an unsaved change. *)
Theorem in_sync_invariant es s s' :
  Forall menu_event es -> consistent s -> steps es s = Some s' ->
  consistent s'.
Proof.
  revert s. induction es as [|e es IH]; intros s Hmenu Hs; simpl.
  - by intros [= <-].
  - apply Forall_cons in Hmenu as [He Hmenu].
    destruct (step e s) as [s1|] eqn:Hstep; [|done].
    apply IH; [done|]. by eapply step_consistent.
Qed.

Lemma step_pending e s s' :
  step e s = Some s' ->
  (saves s' + pending s' <=
     saves s + pending s + (if is_tick e then 1 else 0))%nat.
Proof.
  destruct s as [w b n]. unfold step, pending. simpl.
  destruct e as [o| |f|], b as [|[|]|]; simpl; try discriminate;
    try (intros [= <-]; simpl; lia).
  - intros [= <-]. simpl. destruct (changed (store w)); lia.
  - destruct (SaveToFile f filename (files w) (store w))
      as [[[fs t] err] out].
    intros [= <-]. simpl. lia.
Qed.

(** X14.  The loop saves at most once per tick: along any run that
    starts with no save pending, the number of calls of [SaveToFile] is
    at most the number of ticks. *)
Theorem saves_bounded_by_ticks es s s' :
  bg s <> Checked true -> steps es s = Some s' ->
  (saves s' <= saves s + ticks es)%nat.
Proof.
  intros Hbg Hsteps.
  assert (Hgen : forall es s s', steps es s = Some s' ->
            (saves s' + pending s' <= saves s + pending s + ticks es)%nat).
  { clear. induction es as [|e es IH]; intros s s'; simpl.
    - intros [= <-]. unfold ticks. simpl. lia.
    - destruct (step e s) as [s1|] eqn:Hstep; [|done]. intros Hsteps.
      apply IH in Hsteps. apply step_pending in Hstep.
      unfold ticks in *. rewrite filter_cons.
      destruct (is_tick e); case_decide; simpl in *; try done; lia. }
  apply Hgen in Hsteps.
  assert (pending s = 0%nat) as Hp.
  { unfold pending. destruct (bg s) as [|[|]|]; done. }
  lia.
Qed.

(** X15.  Shutting down saves nothing.  From the loop blocked in its
    [select], the calls of the foreground followed by the signal on
    [done] leave every file as it was, whatever the calls changed in the
    store; and once the loop has returned, no tick, save or second signal
    happens any more. *)
Theorem shutdown_never_saves s calls :
  bg s = Selecting ->
  Forall (fun o => is_menu_op o = true) calls ->
  steps ((EvCall <$> calls) ++ [EvDone]) s =
    Some (mkSystem
            (mkWorld (files (world s)) (store (run calls (world s)))
               (stdout (run calls (world s)) ++ ["Auto-save stopped."%string]))
            Returned (saves s)) /\
  (forall es s1 s2,
     bg s1 = Returned -> steps es s1 = Some s2 ->
     bg s2 = Returned /\ saves s2 = saves s1 /\
     Forall (fun e => exists o, e = EvCall o) es).
Proof.
  intros Hbg Hmenu. split.
  - rewrite steps_calls. simpl. rewrite Hbg.
    by rewrite (files_run_menu calls (world s) Hmenu).
  - clear. intros es. induction es as [|e es IH]; intros s1 s2 Hbg; simpl.
    + by intros [= <-].
    + destruct (step e s1) as [s3|] eqn:Hstep; [|done]. intros Hsteps.
      destruct s1 as [w b n]. simpl in Hbg. subst b.
      destruct e as [o| |f|]; simpl in Hstep; try done.
      injection Hstep as <-.
      destruct (IH (mkSystem (exec o w) Returned n) s2 eq_refl Hsteps)
        as (Hbg2 & Hsaves & Hcalls).
      split; [done|]. split; [done|]. apply Forall_cons. split; [|done].
      by exists o.
Qed.

End AutoSaveMore.

Lemma two_ticks_run : steps two_ticks unsaved_system = Some after_two_ticks.
Proof. reflexivity. Qed.

Lemma unsaved_system_consistent : consistent unsaved_system.
Proof. split; intros Hfalse; discriminate Hfalse. Qed.

Lemma AutoSave_dirty_tick_witness :
  exists s',
    steps (EvTick :: (EvCall <$> [Create 11 "b"]) ++ [EvResume no_save_faults])
      unsaved_system = Some s' /\
    files (world s') =
      <[filename :=
          Sample.Array [mkTodo 1 "a" false 10; mkTodo 2 "b" false 11]]>
        (<[filename := Sample.Empty]> ∅) /\
    todos (store (world s')) =
      todos (store (run [Create 11 "b"] (world unsaved_system))) /\
    changed (store (world s')) = false /\
    bg s' = Selecting /\ saves s' = 1%nat.
Proof.
  apply (@AutoSave_dirty_tick Sample.json unsaved_system [Create 11 "b"]
           (Sample.Array [mkTodo 1 "a" false 10; mkTodo 2 "b" false 11])).
  - reflexivity.
  - reflexivity.
  - repeat constructor.
  - reflexivity.
Defined.

Lemma in_sync_invariant_witness :
  Forall menu_event two_ticks /\ consistent unsaved_system /\
  steps two_ticks unsaved_system = Some after_two_ticks /\
  consistent after_two_ticks.
Proof.
  assert (Hmenu : Forall menu_event two_ticks).
  { repeat constructor. }
  split; [exact Hmenu|]. split; [exact unsaved_system_consistent|].
  split; [exact two_ticks_run|].
  exact (in_sync_invariant two_ticks unsaved_system after_two_ticks Hmenu
           unsaved_system_consistent two_ticks_run).
Defined.

Lemma saves_bounded_by_ticks_witness :
  bg unsaved_system <> Checked true /\
  steps two_ticks unsaved_system = Some after_two_ticks /\
  (saves after_two_ticks <= saves unsaved_system + ticks two_ticks)%nat.
Proof.
  assert (Hbg : bg unsaved_system <> Checked true) by discriminate.
  split; [exact Hbg|]. split; [exact two_ticks_run|].
  exact (saves_bounded_by_ticks two_ticks unsaved_system after_two_ticks Hbg
           two_ticks_run).
Defined.

Lemma shutdown_never_saves_witness :
  steps ((EvCall <$> [Create 11 "b"]) ++ [EvDone]) unsaved_system =
    Some (mkSystem
            (mkWorld (files (world unsaved_system))
               (store (run [Create 11 "b"] (world unsaved_system)))
               (stdout (run [Create 11 "b"] (world unsaved_system)) ++
                ["Auto-save stopped."%string]))
            Returned (saves unsaved_system)).
Proof.
  apply (@shutdown_never_saves Sample.json unsaved_system [Create 11 "b"]).
  - reflexivity.
  - repeat constructor.
Defined.

(** ** Listing and the menu *)

Section MenuFacts.

Context `{library : Library}.

(** X16.  [ListTodos] prints the single line "No To-Dos found." exactly
    when the store holds no record.  Otherwise it prints the heading and
    one line per record in the order of the list; after a creation these
    are the earlier lines followed by the line of the new record, shown
    as incomplete. *)
Theorem ListTodos_lines t :
  (ListTodos t = ["No To-Dos found."%string] <-> todos t = []) /\
  (todos t <> [] ->
   ListTodos t = (nl ++ "To-Do List:")%string :: (todo_line <$> todos t)) /\
  (forall now title,
     ListTodos (CreateTodo now title t).1 =
       (nl ++ "To-Do List:")%string ::
       (todo_line <$> todos t) ++
       [("ID: " ++ itoa (GoInt.incr (idCounter t)) ++ " | Title: " ++ title ++
         " | Status: Incomplete | Created At: " ++ Format_RFC822 now)%string]).
Proof.
  unfold ListTodos. split; [|split].
  - destruct (todos t) as [|todo l]; simpl; [done|].
    split; intros Habs; discriminate Habs.
  - intros Hne. destruct (todos t) as [|todo l]; [done|]. done.
  - intros now title. unfold CreateTodo. simpl.
    rewrite decide_False by (rewrite length_app; simpl; lia).
    by rewrite fmap_app.
Qed.

Lemma calls_of_app a b : calls_of (a ++ b) = calls_of a ++ calls_of b.
Proof.
  induction a as [|[s|s|c|] a IH]; simpl; try done. by rewrite IH.
Qed.

Lemma calls_of_menu : calls_of menu = [].
Proof. reflexivity. Qed.

(** What one turn can call: a creation only with a title that is not
    empty. *)
Lemma iteration_calls input c :
  c ∈ calls_of (iteration input).1.1 ->
  match c with
  | CallCreate title => title <> EmptyString
  | _ => True
  end.
Proof.
  unfold iteration. destruct (ReadString input) as [choice input1].
  destruct (ReadString input1) as [l2 input2].
  destruct (ReadString input2) as [l3 input3].
  destruct (ReadString input3) as [l4 input4].
  repeat case_decide; try destruct (Sscan _); simpl;
    rewrite ?calls_of_app, ?calls_of_menu; simpl;
    try case_decide; simpl;
    intros Hin; apply list_elem_of_In in Hin; simpl in Hin;
    repeat (destruct Hin as [<-|Hin]; [done|]); done.
Qed.

Lemma main_loop_calls n input c :
  c ∈ calls_of (main_loop n input) ->
  match c with
  | CallCreate title => title <> EmptyString
  | _ => True
  end.
Proof.
  revert input. induction n as [|n IH]; intros input; simpl.
  - intros Hin. by apply elem_of_nil in Hin.
  - pose proof (iteration_calls input c) as Hturn.
    destruct (iteration input) as [[actions input'] returned].
    simpl in Hturn. rewrite calls_of_app. intros Hin.
    apply elem_of_app in Hin as [Hin|Hin]; [by apply Hturn|].
    destruct returned; [by apply elem_of_nil in Hin|]. by eapply IH.
Qed.

(** X17.  Whatever is typed, [main] never calls [CreateTodo] with an
    empty title: a title that is empty once trimmed is refused before the
    store is reached. *)
Theorem menu_never_creates_empty_title n input title :
  CallCreate title ∈ calls_of (main_actions n input) ->
  title <> EmptyString.
Proof.
  unfold main_actions. rewrite calls_of_app. simpl.
  apply (main_loop_calls n input (CallCreate title)).
Qed.

Lemma call_method_titles now c t :
  match c with
  | CallCreate title => title <> EmptyString
  | _ => True
  end ->
  titles_nonempty t -> titles_nonempty (call_method now c t).1.
Proof.
  unfold titles_nonempty.
  destruct c as [title| |id newTitle completed|id]; simpl; intros Hc Ht.
  - apply Forall_app. split; [done|]. by apply Forall_singleton.
  - done.
  - destruct (find_ID id (todos t)) as [i|] eqn:Hi.
    + destruct (find_ID_Some _ _ _ Hi) as (old & Hold & _ & _).
      rewrite (UpdateTodo_found _ _ _ _ _ _ Hi Hold). simpl.
      apply Forall_insert; [done|]. unfold updated. simpl.
      case_decide; [|done].
      rewrite Forall_forall in Ht. apply Ht.
      by eapply list_elem_of_lookup_2.
    + unfold UpdateTodo. by rewrite Hi.
  - unfold DeleteTodo. destruct (find_ID id (todos t)) as [i|]; simpl;
      [|done].
    apply Forall_app. split; [by apply Forall_take | by apply Forall_drop].
Qed.

Lemma perform_titles clock k actions t :
  (forall c, c ∈ calls_of actions ->
     match c with
     | CallCreate title => title <> EmptyString
     | _ => True
     end) ->
  titles_nonempty t -> titles_nonempty (perform clock k actions t).1.
Proof.
  revert k t. induction actions as [|[s|s|c|] actions IH]; intros k t;
    simpl; intros Hcalls Ht; try done.
  - specialize (IH (S k) t Hcalls Ht).
    by destruct (perform clock (S k) actions t).
  - specialize (IH (S k) t Hcalls Ht).
    by destruct (perform clock (S k) actions t).
  - pose proof (call_method_titles (clock k) c t) as Hc.
    destruct (call_method (clock k) c t) as [t1 out]. simpl in Hc.
    assert (Ht1 : titles_nonempty t1).
    { apply Hc; [|done]. apply Hcalls. apply list_elem_of_here. }
    assert (Hrest : forall c', c' ∈ calls_of actions ->
              match c' with
              | CallCreate title => title <> EmptyString
              | _ => True
              end).
    { intros c' Hin. apply Hcalls. by apply list_elem_of_further. }
    specialize (IH (S k) t1 Hrest Ht1).
    by destruct (perform clock (S k) actions t1).
Qed.

(** X18.  If no record of the store has an empty title, none has one
    after any number of turns of the menu, whatever is typed: creations
    with an empty title are refused by [main], and [UpdateTodo] keeps the
    old title when the new one is empty. *)
Theorem menu_keeps_titles_nonempty clock k n input t :
  titles_nonempty t ->
  titles_nonempty (perform clock k (main_actions n input) t).1.
Proof.
  apply perform_titles. intros c Hin.
  unfold main_actions in Hin. rewrite calls_of_app in Hin. simpl in Hin.
  by eapply main_loop_calls.
Qed.

End MenuFacts.

Section MenuTurns.

Context `{library : Library}.

Lemma choices_differ :
  "3"%string <> "1"%string /\ "3"%string <> "2"%string /\
  "4"%string <> "1"%string /\ "4"%string <> "2"%string /\
  "4"%string <> "3"%string.
Proof. repeat split; discriminate. Qed.

(** X19.  In the update dialogue the flag handed to [UpdateTodo] is true
    exactly when the answer, trimmed and in lower case, is "yes".  Any
    other answer writes false: a task that was completed is incomplete
    again after its title alone was to be changed. *)
Theorem menu_update_answer l1 l2 l3 l4 rest id clock k t :
  TrimSpace l1 = "3"%string -> Sscan (TrimSpace l2) = Some id ->
  (iteration (l1 :: l2 :: l3 :: l4 :: rest)).1.2 = rest /\
  (perform clock k (iteration (l1 :: l2 :: l3 :: l4 :: rest)).1.1 t).1 =
    (UpdateTodo id (TrimSpace l3)
       (bool_decide (ToLower (TrimSpace l4) = "yes"%string)) t).1 /\
  (ToLower (TrimSpace l4) <> "yes"%string -> id ∈ ids (todos t) ->
   exists i old,
     todos t !! i = Some old /\ ID old = id /\
     todos (perform clock k
              (iteration (l1 :: l2 :: l3 :: l4 :: rest)).1.1 t).1 !! i =
       Some {| ID := id;
               Title := if decide (TrimSpace l3 = EmptyString)
                        then Title old else TrimSpace l3;
               Completed := false;
               CreatedAt := CreatedAt old |}).
Proof.
  intros H1 Hscan. destruct choices_differ as (N1 & N2 & _).
  assert (Hstore :
    (perform clock k (iteration (l1 :: l2 :: l3 :: l4 :: rest)).1.1 t).1 =
      (UpdateTodo id (TrimSpace l3)
         (bool_decide (ToLower (TrimSpace l4) = "yes"%string)) t).1).
  { unfold iteration. simpl. rewrite H1.
    rewrite (decide_False _ _ N1), (decide_False _ _ N2).
    rewrite decide_True by done. rewrite Hscan. simpl.
    by destruct (UpdateTodo _ _ _ t). }
  split; [|split; [exact Hstore|]].
  - unfold iteration. simpl. rewrite H1.
    rewrite (decide_False _ _ N1), (decide_False _ _ N2).
    rewrite decide_True by done. by rewrite Hscan.
  - intros Hno Hin. rewrite Hstore.
    rewrite bool_decide_eq_false_2 by done.
    destruct (find_ID_present _ _ Hin) as [i Hi].
    destruct (find_ID_Some _ _ _ Hi) as (old & Hold & Hid & _).
    exists i, old. split; [done|]. split; [done|].
    rewrite (UpdateTodo_found _ _ _ _ _ _ Hi Hold). simpl.
    rewrite list_lookup_insert_eq by (by eapply lookup_lt_Some).
    unfold updated. by rewrite Hid.
Qed.

(** X20.  [main] prints its line of success after every update and
    every deletion, also when the store has just printed that it found
    nothing and has changed nothing. *)
Theorem menu_success_after_not_found l1 l2 l3 l4 rest id clock k t :
  Sscan (TrimSpace l2) = Some id -> id ∉ ids (todos t) ->
  (TrimSpace l1 = "3"%string ->
   (perform clock k (iteration (l1 :: l2 :: l3 :: l4 :: rest)).1.1 t).1 = t /\
   [Line "To-Do not found."; Line "✅ To-Do updated successfully!"]%string
     `suffix_of`
     (perform clock k (iteration (l1 :: l2 :: l3 :: l4 :: rest)).1.1 t).2) /\
  (TrimSpace l1 = "4"%string ->
   (perform clock k (iteration (l1 :: l2 :: rest)).1.1 t).1 = t /\
   [Line "To-Do not found."; Line "✅ To-Do deleted successfully!"]%string
     `suffix_of`
     (perform clock k (iteration (l1 :: l2 :: rest)).1.1 t).2).
Proof.
  intros Hscan Hnotin. apply find_ID_None in Hnotin.
  destruct choices_differ as (N1 & N2 & M1 & M2 & M3).
  split; intros H1; unfold iteration; simpl; rewrite H1.
  - rewrite (decide_False _ _ N1), (decide_False _ _ N2).
    rewrite decide_True by done. rewrite Hscan. simpl.
    destruct (find_ID_absent_calls id (TrimSpace l3)
      (bool_decide (ToLower (TrimSpace l4) = "yes"%string)) t Hnotin)
      as [-> _].
    simpl. split; [done|].
    repeat first [reflexivity | apply suffix_cons_r].
  - rewrite (decide_False _ _ M1), (decide_False _ _ M2),
      (decide_False _ _ M3).
    rewrite decide_True by done. rewrite Hscan. simpl.
    destruct (find_ID_absent_calls id EmptyString false t Hnotin)
      as [_ ->].
    simpl. split; [done|].
    repeat first [reflexivity | apply suffix_cons_r].
Qed.

(** X21.  When the id typed for an update or a deletion is no number,
    the turn ends there: no method is called, and only the choice and the
    id have been read, so what was typed as new title or as answer is
    read as the next choices. *)
Theorem menu_invalid_id l1 l2 rest :
  TrimSpace l1 = "3"%string \/ TrimSpace l1 = "4"%string ->
  Sscan (TrimSpace l2) = None ->
  calls_of (iteration (l1 :: l2 :: rest)).1.1 = [] /\
  (iteration (l1 :: l2 :: rest)).1.2 = rest /\
  (iteration (l1 :: l2 :: rest)).2 = false.
Proof.
  destruct choices_differ as (N1 & N2 & M1 & M2 & M3).
  intros [H1|H1] Hscan; unfold iteration; simpl; rewrite H1.
  - rewrite (decide_False _ _ N1), (decide_False _ _ N2).
    rewrite decide_True by done. by rewrite Hscan.
  - rewrite (decide_False _ _ M1), (decide_False _ _ M2),
      (decide_False _ _ M3).
    rewrite decide_True by done. by rewrite Hscan.
Qed.

Lemma iteration_turn input :
  (iteration input).1.2 `suffix_of` input /\
  ((iteration input).2 = false /\ FgShutdown ∉ (iteration input).1.1 \/
   (iteration input).2 = true /\
   TrimSpace (ReadString input).1 = "5"%string /\
   FgShutdown ∈ (iteration input).1.1 /\
   last (iteration input).1.1 = Some FgShutdown).
Proof.
  assert (Hsuffix : forall l : list string,
            (ReadString l).2 `suffix_of` l).
  { intros [|x l]; simpl; [done|]. by apply suffix_cons_r. }
  unfold iteration.
  pose proof (Hsuffix input) as S1.
  destruct (ReadString input) as [choice input1]. simpl in S1.
  pose proof (Hsuffix input1) as S2.
  destruct (ReadString input1) as [l2 input2]. simpl in S2.
  pose proof (Hsuffix input2) as S3.
  destruct (ReadString input2) as [l3 input3]. simpl in S3.
  pose proof (Hsuffix input3) as S4.
  destruct (ReadString input3) as [l4 input4]. simpl in S4.
  assert (S12 : input2 `suffix_of` input) by (by etrans).
  assert (S14 : input4 `suffix_of` input) by (etrans; [|done]; by etrans).
  repeat case_decide; try destruct (Sscan _); simpl;
    (split; [done|]);
    try (left; split; [done|]; intros Hin;
         apply list_elem_of_In in Hin; simpl in Hin;
         repeat (destruct Hin as [Heq|Hin]; [discriminate Heq|]); done).
  right. split; [done|]. split; [done|]. split.
  - apply list_elem_of_In. simpl. tauto.
  - reflexivity.
Qed.

Lemma main_loop_shutdown n input :
  TrimSpace EmptyString = EmptyString ->
  FgShutdown ∈ main_loop n input ->
  exists line, line ∈ input /\ TrimSpace line = "5"%string.
Proof.
  intros Hempty. revert input. induction n as [|n IH]; intros input; simpl.
  - intros Hin. by apply elem_of_nil in Hin.
  - destruct (iteration_turn input) as [Hsuffix Hturn].
    destruct (iteration input) as [[actions input'] returned]. simpl in *.
    intros Hin.
    destruct Hturn as [[-> Hnone]|(-> & Hfive & _)].
    + apply elem_of_app in Hin as [Hin|Hin]; [done|].
      destruct (IH input' Hin) as (line & Hline & Hfive).
      exists line. split; [|done].
      destruct Hsuffix as [pre ->]. apply elem_of_app. by right.
    + destruct input as [|line input]; simpl in Hfive.
      * rewrite Hempty in Hfive. discriminate Hfive.
      * exists line. split; [apply list_elem_of_here | done].
Qed.

(** X22.  The only way out of [main] is the choice "5": if the loop
    ends, one of the lines read is "5" once trimmed.  At the end of
    input [ReadString] returns the empty string every time, so [main]
    goes round for ever, printing the menu and refusing the choice. *)
Theorem main_returns_only_on_5 n input :
  TrimSpace EmptyString = EmptyString ->
  FgShutdown ∈ main_actions n input ->
  exists line, line ∈ input /\ TrimSpace line = "5"%string.
Proof.
  intros Hempty Hin. unfold main_actions in Hin.
  apply elem_of_app in Hin as [Hin|Hin].
  - apply list_elem_of_In in Hin. simpl in Hin.
    repeat (destruct Hin as [Heq|Hin]; [discriminate Heq|]). done.
  - by eapply main_loop_shutdown.
Qed.

(** X23.  Once [main] has returned within [n] turns, the actions are
    final: they end with the shutdown, and allowing more turns adds
    nothing, whatever input is left. *)
Theorem main_loop_final n m input :
  FgShutdown ∈ main_loop n input -> (n <= m)%nat ->
  main_loop m input = main_loop n input /\
  last (main_loop n input) = Some FgShutdown.
Proof.
  revert m input. induction n as [|n IH]; intros m input; simpl.
  - intros Hin. by apply elem_of_nil in Hin.
  - intros Hin Hle. destruct m as [|m]; [lia|]. simpl.
    destruct (iteration_turn input) as [_ Hturn].
    destruct (iteration input) as [[actions input'] returned]. simpl in *.
    destruct Hturn as [[-> Hnone]|(-> & _ & _ & Hlast)].
    + apply elem_of_app in Hin as [Hin|Hin]; [done|].
      destruct (IH m input' Hin) as [-> Hlast]; [lia|].
      split; [done|]. rewrite last_app, Hlast. done.
    + split; [done|]. by rewrite app_nil_r.
Qed.

End MenuTurns.

Lemma ListTodos_lines_witness :
  todos one_done <> [] /\
  @ListTodos SampleLib.lib one_done =
    [(nl ++ "To-Do List:")%string;
     "ID: 1 | Title: Buy milk | Status: Completed | Created At: 01 Jan 01 00:00 UTC"%string].
Proof.
  assert (Hne : todos one_done <> []) by discriminate.
  split; [exact Hne|].
  exact (proj1 (proj2 (@ListTodos_lines SampleLib.lib one_done)) Hne).
Defined.

Lemma menu_never_creates_empty_title_witness :
  CallCreate "Buy milk" ∈
    calls_of (@main_actions SampleLib.lib 2
                [typed "1"; typed ""; typed "1"; typed "  Buy milk "]) /\
  "Buy milk"%string <> EmptyString.
Proof.
  assert (Hin :
    CallCreate "Buy milk" ∈
      calls_of (@main_actions SampleLib.lib 2
                  [typed "1"; typed ""; typed "1"; typed "  Buy milk "])).
  { vm_compute. apply list_elem_of_here. }
  split; [exact Hin|].
  exact (@menu_never_creates_empty_title SampleLib.lib 2
           [typed "1"; typed ""; typed "1"; typed "  Buy milk "]
           "Buy milk" Hin).
Defined.

Lemma menu_keeps_titles_nonempty_witness :
  titles_nonempty one_done /\
  titles_nonempty
    (@perform SampleLib.lib (fun k => Z.of_nat k) 0
       (@main_actions SampleLib.lib 3
          [typed "1"; typed "   "; typed "3"; typed "1"; typed "";
           typed "yes"; typed "1"; typed "Walk dog"])
       one_done).1.
Proof.
  assert (Ht : titles_nonempty one_done).
  { apply Forall_cons. split; [discriminate | apply Forall_nil_2]. }
  split; [exact Ht|].
  exact (@menu_keeps_titles_nonempty SampleLib.lib (fun k => Z.of_nat k) 0 3
           [typed "1"; typed "   "; typed "3"; typed "1"; typed "";
            typed "yes"; typed "1"; typed "Walk dog"]
           one_done Ht).
Defined.

Lemma menu_update_answer_witness :
  @TrimSpace SampleLib.lib (typed "3") = "3"%string /\
  @Sscan SampleLib.lib (@TrimSpace SampleLib.lib (typed "1")) = Some 1 /\
  @ToLower SampleLib.lib (@TrimSpace SampleLib.lib (typed "")) <>
    "yes"%string /\
  (1 ∈ ids (todos one_done)) /\
  exists i old,
    todos one_done !! i = Some old /\ ID old = 1 /\
    todos (@perform SampleLib.lib (fun k => Z.of_nat k) 0
             (@iteration SampleLib.lib
                [typed "3"; typed "1"; typed "Buy oat milk"; typed ""]).1.1
             one_done).1 !! i =
      Some {| ID := 1;
              Title :=
                if decide (@TrimSpace SampleLib.lib (typed "Buy oat milk")
                           = EmptyString)
                then Title old
                else @TrimSpace SampleLib.lib (typed "Buy oat milk");
              Completed := false;
              CreatedAt := CreatedAt old |}.
Proof.
  assert (H1 : @TrimSpace SampleLib.lib (typed "3") = "3"%string)
    by (vm_compute; reflexivity).
  assert (Hscan :
    @Sscan SampleLib.lib (@TrimSpace SampleLib.lib (typed "1")) = Some 1)
    by (vm_compute; reflexivity).
  assert (Hno :
    @ToLower SampleLib.lib (@TrimSpace SampleLib.lib (typed "")) <>
      "yes"%string)
    by (vm_compute; discriminate).
  assert (Hin : 1 ∈ ids (todos one_done)) by apply list_elem_of_here.
  split; [exact H1|]. split; [exact Hscan|]. split; [exact Hno|].
  split; [exact Hin|].
  exact (proj2 (proj2 (@menu_update_answer SampleLib.lib
           (typed "3") (typed "1") (typed "Buy oat milk") (typed "") []
           1 (fun k => Z.of_nat k) 0 one_done H1 Hscan)) Hno Hin).
Defined.

Lemma menu_success_after_not_found_witness :
  @Sscan SampleLib.lib (@TrimSpace SampleLib.lib (typed "7")) = Some 7 /\
  (7 ∉ ids (todos one_done)) /\
  @TrimSpace SampleLib.lib (typed "4") = "4"%string /\
  (@perform SampleLib.lib (fun k => Z.of_nat k) 0
     (@iteration SampleLib.lib [typed "4"; typed "7"]).1.1 one_done).1 =
    one_done /\
  [Line "To-Do not found."; Line "✅ To-Do deleted successfully!"]%string
    `suffix_of`
    (@perform SampleLib.lib (fun k => Z.of_nat k) 0
       (@iteration SampleLib.lib [typed "4"; typed "7"]).1.1 one_done).2.
Proof.
  assert (Hscan :
    @Sscan SampleLib.lib (@TrimSpace SampleLib.lib (typed "7")) = Some 7)
    by (vm_compute; reflexivity).
  assert (Hnotin : 7 ∉ ids (todos one_done)).
  { intros Hin. apply list_elem_of_In in Hin.
    destruct Hin as [Heq | []]. discriminate Heq. }
  assert (H4 : @TrimSpace SampleLib.lib (typed "4") = "4"%string)
    by (vm_compute; reflexivity).
  split; [exact Hscan|]. split; [exact Hnotin|]. split; [exact H4|].
  exact (proj2 (@menu_success_after_not_found SampleLib.lib
           (typed "4") (typed "7") EmptyString EmptyString []
           7 (fun k => Z.of_nat k) 0 one_done Hscan Hnotin) H4).
Defined.

Lemma menu_invalid_id_witness :
  (@TrimSpace SampleLib.lib (typed "3") = "3"%string \/
   @TrimSpace SampleLib.lib (typed "3") = "4"%string) /\
  @Sscan SampleLib.lib (@TrimSpace SampleLib.lib (typed "one")) = None /\
  calls_of (@iteration SampleLib.lib
              [typed "3"; typed "one"; typed "Buy oat milk"; typed "yes"]).1.1
    = [] /\
  (@iteration SampleLib.lib
     [typed "3"; typed "one"; typed "Buy oat milk"; typed "yes"]).1.2 =
    [typed "Buy oat milk"; typed "yes"].
Proof.
  assert (H3 : @TrimSpace SampleLib.lib (typed "3") = "3"%string \/
               @TrimSpace SampleLib.lib (typed "3") = "4"%string).
  { left. vm_compute. reflexivity. }
  assert (Hscan :
    @Sscan SampleLib.lib (@TrimSpace SampleLib.lib (typed "one")) = None)
    by (vm_compute; reflexivity).
  split; [exact H3|]. split; [exact Hscan|].
  destruct (@menu_invalid_id SampleLib.lib (typed "3") (typed "one")
              [typed "Buy oat milk"; typed "yes"] H3 Hscan)
    as (Hcalls & Hrest & _).
  split; [exact Hcalls | exact Hrest].
Defined.

Lemma main_returns_only_on_5_witness :
  @TrimSpace SampleLib.lib EmptyString = EmptyString /\
  FgShutdown ∈ @main_actions SampleLib.lib 2 [typed "2"; typed " 5"] /\
  exists line,
    line ∈ [typed "2"; typed " 5"] /\
    @TrimSpace SampleLib.lib line = "5"%string.
Proof.
  assert (Hempty : @TrimSpace SampleLib.lib EmptyString = EmptyString)
    by reflexivity.
  assert (Hin :
    FgShutdown ∈ @main_actions SampleLib.lib 2 [typed "2"; typed " 5"]).
  { vm_compute.
    repeat first [apply list_elem_of_here | apply list_elem_of_further]. }
  split; [exact Hempty|]. split; [exact Hin|].
  exact (@main_returns_only_on_5 SampleLib.lib 2 [typed "2"; typed " 5"]
           Hempty Hin).
Defined.

Lemma main_loop_final_witness :
  FgShutdown ∈ @main_loop SampleLib.lib 1 [typed "5"; typed "1"] /\
  @main_loop SampleLib.lib 3 [typed "5"; typed "1"] =
    @main_loop SampleLib.lib 1 [typed "5"; typed "1"].
Proof.
  assert (Hin : FgShutdown ∈ @main_loop SampleLib.lib 1 [typed "5"; typed "1"]).
  { vm_compute.
    repeat first [apply list_elem_of_here | apply list_elem_of_further]. }
  split; [exact Hin|].
  refine (proj1 (@main_loop_final SampleLib.lib 1 3 [typed "5"; typed "1"]
                   Hin _)).
  repeat constructor.
Defined.
